(** * Workforce-Compass: the cohort projection engine and the metrics preparer

    A shallow embedding of [core/predictor.py] ([HRPredictor.predict_one_year],
    [HRPredictor.predict_multiple_years]) and of
    [core/data_processor.py] ([DataProcessor.calculate_current_metrics]).

    Python values are modelled as the interpreter has them:
    - [int] is [Z] (unbounded);
    - [float] is the kernel's binary64 [float];
    - [Dict[int, V]] is [gmap Z V], a subscript [d[k]] raises [KeyError] when
      the key is absent;
    - an exception is the [Raise] branch of [result]. *)

From Stdlib Require Import ZArith List Lia String.
From Stdlib Require Import PrimFloat FloatOps SpecFloat.
From stdpp Require Import gmap sorting.

Local Open Scope Z_scope.

(** ** Exceptions and the error monad *)

Inductive exn : Type :=
  | KeyError (k : Z)
  | OverflowError
  | ZeroDivisionError
  | ValueError (msg : string).

Inductive result (A : Type) : Type :=
  | Ok (a : A)
  | Raise (e : exn).
Arguments Ok {A} a.
Arguments Raise {A} e.

#[global] Instance result_ret : MRet result := @Ok.
#[global] Instance result_bind : MBind result := λ A B f m,
  match m with
  | Ok a => f a
  | Raise e => Raise e
  end.
#[global] Instance result_fmap : FMap result := λ A B f m,
  match m with
  | Ok a => Ok (f a)
  | Raise e => Raise e
  end.

(** The message of the only [raise] statement of [predict_one_year]. *)
Definition first_year_message : string :=
  "First year prediction requires current campus and social recruitment age data".
(** The message of [round] on a NaN. *)
Definition nan_message : string := "cannot convert float NaN to integer".

(** ** Numbers *)

(** [float(n)] as the arithmetic operators apply it to an [int] operand that
    meets a [float]: the nearest binary64 (ties to even), [OverflowError]
    when [n] is out of range. *)
Definition float_of_int (n : Z) : result float :=
  match binary_normalize prec emax n 0 false with
  | S754_infinity _ => Raise OverflowError
  | x => Ok (SF2Prim x)
  end.

(** The integer nearest to [(-1)^s * m * 2^e], ties to even. *)
Definition round_half_even (s : bool) (m : positive) (e : Z) : Z :=
  let a :=
    match e with
    | Zneg p =>
        let d := Z.pow_pos 2 p in
        let q := Z.pos m / d in
        let r := Z.pos m mod d in
        match 2 * r ?= d with
        | Lt => q
        | Gt => q + 1
        | Eq => if Z.even q then q else q + 1
        end
    | _ => Z.pos m * 2 ^ e
    end in
  if s then - a else a.

(** [round(x)] with one argument: an [int], ties to even; it raises on
    infinities and NaN. *)
Definition round (x : float) : result Z :=
  match Prim2SF x with
  | S754_zero _ => Ok 0
  | S754_finite s m e => Ok (round_half_even s m e)
  | S754_infinity _ => Raise OverflowError
  | S754_nan => Raise (ValueError nan_message)
  end.

(** [n * x], [x * n], [n - x] and [x / n] for an [int] [n] and a [float] [x]. *)
Definition int_mul_float (n : Z) (x : float) : result float :=
  f ← float_of_int n; Ok (f * x)%float.
Definition float_mul_int (x : float) (n : Z) : result float :=
  f ← float_of_int n; Ok (x * f)%float.
Definition int_sub_float (n : Z) (x : float) : result float :=
  f ← float_of_int n; Ok (f - x)%float.
Definition float_div_int (x : float) (n : Z) : result float :=
  f ← float_of_int n;
  if decide (n = 0) then Raise ZeroDivisionError else Ok (x / f)%float.

(** [a / b] on two [int]s: the correctly rounded quotient. *)
Definition spec_of_int (n : Z) : spec_float :=
  match n with
  | Z0 => S754_zero false
  | Zpos p => S754_finite false p 0
  | Zneg p => S754_finite true p 0
  end.
Definition int_truediv (a b : Z) : result float :=
  if decide (b = 0) then Raise ZeroDivisionError
  else match SFdiv prec emax (spec_of_int a) (spec_of_int b) with
       | S754_infinity _ => Raise OverflowError
       | q => Ok (SF2Prim q)
       end.

(** The builtin [sum] over a non-empty sequence of floats.  CPython adds
    from left to right; from 3.12 on it carries Neumaier's compensation
    term.  The engine is stated for either. *)
Class FloatSum := float_sum : list float → float.

Definition float_sum_left : FloatSum :=
  λ xs, fold_left (λ acc x, acc + x)%float xs 0%float.

Fixpoint neumaier (xs : list float) (f c : float) : float :=
  match xs with
  | [] => if negb (is_zero c) && is_finite c then (f + c)%float else f
  | x :: xs =>
      let t := (f + x)%float in
      let c' := if (abs x <=? abs f)%float
                then (c + ((f - t) + x))%float
                else (c + ((x - t) + f))%float in
      neumaier xs t c'
  end.
Definition float_sum_compensated : FloatSum :=
  λ xs, match xs with
        | [] => 0%float
        | x :: xs => neumaier xs (0 + x)%float 0%float
        end.

(** [sum] over a sequence of [int]s. *)
Definition int_sum (xs : list Z) : Z := fold_left Z.add xs 0.

(** ** Dictionaries and comprehensions *)

(** [d[k]] *)
Definition getitem {V} (d : gmap Z V) (k : Z) : result V :=
  match d !! k with
  | Some v => Ok v
  | None => Raise (KeyError k)
  end.

(** [range(a, b)] *)
Definition range (a b : Z) : list Z := seqZ a (b - a).

(** [{k: f(k) for k in ks}], filling a dictionary that starts as [d]. *)
Fixpoint dict_fill {V} (f : Z → result V) (ks : list Z) (d : gmap Z V)
  : result (gmap Z V) :=
  match ks with
  | [] => Ok d
  | k :: ks => v ← f k; dict_fill f ks (<[k := v]> d)
  end.
Definition dict_comp {V} (f : Z → result V) (ks : list Z) : result (gmap Z V) :=
  dict_fill f ks ∅.

(** [(f(k) for k in ks)], consumed to its end. *)
Fixpoint gen_expr {A} (f : Z → result A) (ks : list Z) : result (list A) :=
  match ks with
  | [] => Ok []
  | k :: ks => x ← f k; xs ← gen_expr f ks; Ok (x :: xs)
  end.

(** [sum(d.values())] for a dictionary of [int]s. *)
Definition sum_values (d : gmap Z Z) : Z :=
  map_fold (λ _ v acc, acc + v) 0 d.

(** [max(ks, key=key)]: the first item whose key is the largest. *)
Fixpoint max_from (key : Z → result Z) (ks : list Z) (maxitem maxval : Z)
  : result Z :=
  match ks with
  | [] => Ok maxitem
  | k :: ks =>
      v ← key k;
      if decide (maxval < v) then max_from key ks k v
      else max_from key ks maxitem maxval
  end.
Definition max_key (key : Z → result Z) (ks : list Z) : result Z :=
  match ks with
  | [] => Raise (ValueError "max() iterable argument is empty")
  | k :: ks => v ← key k; max_from key ks k v
  end.

(** ** [HRPredictor]: the single-year transition *)

Definition MIN_LEVEL : Z := 1.
Definition MAX_LEVEL : Z := 7.
Definition LEVEL_RANGE : list Z := range MIN_LEVEL (MAX_LEVEL + 1).

(** [round(employees[level] * rates[level])]: the head-count promoted out of
    [level] (lines 85-86), and into [level + 1] (lines 89-90). *)
Definition promoted (employees : gmap Z Z) (rates : gmap Z float) (level : Z)
  : result Z :=
  n ← getitem employees level;
  r ← getitem rates level;
  x ← int_mul_float n r;
  round x.

Definition promoted_in (employees : gmap Z Z) (rates : gmap Z float) (level : Z)
  : result Z :=
  if decide (MIN_LEVEL < level) then promoted employees rates (level - 1)
  else Ok 0.

(** [employees[level] - promoted_out + promoted_in] (lines 93-94). *)
Definition after_promotion (employees : gmap Z Z) (level promoted_out promoted_in : Z)
  : result Z :=
  n ← getitem employees level;
  Ok (n - promoted_out + promoted_in).

(** One turn of the loop of step 1 (lines 83-94) on the two dictionaries
    [A_campus] and [A_social]. *)
Definition promotion_body
    (current_campus_employees current_social_employees : gmap Z Z)
    (campus_promotion_rates social_promotion_rates : gmap Z float)
    (A : gmap Z Z * gmap Z Z) (level : Z) : result (gmap Z Z * gmap Z Z) :=
  promoted_out_campus ← promoted current_campus_employees campus_promotion_rates level;
  promoted_out_social ← promoted current_social_employees social_promotion_rates level;
  promoted_in_campus ← promoted_in current_campus_employees campus_promotion_rates level;
  promoted_in_social ← promoted_in current_social_employees social_promotion_rates level;
  a_campus ← after_promotion current_campus_employees level promoted_out_campus promoted_in_campus;
  a_social ← after_promotion current_social_employees level promoted_out_social promoted_in_social;
  Ok (<[level := a_campus]> A.1, <[level := a_social]> A.2).

Fixpoint for_each {S} (body : S → Z → result S) (ks : list Z) (s : S) : result S :=
  match ks with
  | [] => Ok s
  | k :: ks => s' ← body s k; for_each body ks s'
  end.

Definition promotion_pass
    (current_campus_employees current_social_employees : gmap Z Z)
    (campus_promotion_rates social_promotion_rates : gmap Z float)
  : result (gmap Z Z * gmap Z Z) :=
  for_each (promotion_body current_campus_employees current_social_employees
                           campus_promotion_rates social_promotion_rates)
           LEVEL_RANGE (∅, ∅).

(** [round(A[level] - employees[level] * attrition_rates[level])]
    (lines 98 and 103). *)
Definition after_attrition (A employees : gmap Z Z) (attrition_rates : gmap Z float)
    (level : Z) : result Z :=
  a ← getitem A level;
  n ← getitem employees level;
  r ← getitem attrition_rates level;
  leaving ← int_mul_float n r;
  x ← int_sub_float a leaving;
  round x.

(** Step 4 (lines 118-134): the allocation of the social hires. *)
Definition rounded_allocation (total_social_hiring_needed : Z)
    (hiring_ratios : gmap Z float) : result (gmap Z Z) :=
  dict_comp (λ level, r ← getitem hiring_ratios level;
                      x ← int_mul_float total_social_hiring_needed r;
                      round x) LEVEL_RANGE.

Definition adjust_allocation (total_social_hiring_needed : Z)
    (initial_C : gmap Z Z) : result (gmap Z Z) :=
  let initial_total := sum_values initial_C in
  if decide (initial_total ≠ total_social_hiring_needed) then
    let diff := total_social_hiring_needed - initial_total in
    max_hiring_level ← max_key (getitem initial_C) LEVEL_RANGE;
    v ← getitem initial_C max_hiring_level;
    Ok (<[max_hiring_level := v + diff]> initial_C)
  else Ok initial_C.

Definition clamp_allocation (initial_C : gmap Z Z) : result (gmap Z Z) :=
  dict_comp (λ level, v ← getitem initial_C level; Ok (Z.max 0 v)) LEVEL_RANGE.

(** The local variables of [predict_one_year] up to line 165. *)
Module Locals.
Record t := mk {
  A_campus : gmap Z Z;
  A_social : gmap Z Z;
  B_campus : gmap Z Z;
  B_social : gmap Z Z;
  B : gmap Z Z;
  total_B : Z;
  campus_hiring : Z;
  total_social_hiring_needed : Z;
  rounded_C : gmap Z Z;     (* [initial_C] as line 118 builds it *)
  initial_C : gmap Z Z;     (* [initial_C] after line 129 *)
  C : gmap Z Z;
  final_campus : gmap Z Z;
  final_social : gmap Z Z;
  final_structure : gmap Z Z;
  predicted_total : Z;
  predicted_average_level : float;
  current_total : Z
}.
End Locals.

(** Lines 79-165. *)
Definition structure_phase
    (current_campus_employees current_social_employees : gmap Z Z)
    (campus_promotion_rates social_promotion_rates : gmap Z float)
    (campus_attrition_rates social_attrition_rates : gmap Z float)
    (hiring_ratios : gmap Z float) (campus_ratio : float) (target_total : Z)
  : result Locals.t :=
  (* Step 1 *)
  '(A_campus, A_social) ←
    promotion_pass current_campus_employees current_social_employees
                   campus_promotion_rates social_promotion_rates;
  (* Step 2 *)
  B_campus ← dict_comp (after_attrition A_campus current_campus_employees
                                        campus_attrition_rates) LEVEL_RANGE;
  B_social ← dict_comp (after_attrition A_social current_social_employees
                                        social_attrition_rates) LEVEL_RANGE;
  B ← dict_comp (λ level, c ← getitem B_campus level;
                          s ← getitem B_social level;
                          Ok (c + s)) LEVEL_RANGE;
  (* Step 3 *)
  let total_B := sum_values B in
  campus_hiring ← (x ← int_mul_float target_total campus_ratio; round x);
  let total_social_hiring_needed := target_total - total_B - campus_hiring in
  (* Step 4 *)
  rounded_C ← rounded_allocation total_social_hiring_needed hiring_ratios;
  initial_C ← adjust_allocation total_social_hiring_needed rounded_C;
  C ← clamp_allocation initial_C;
  (* Step 5 *)
  final_campus ← dict_comp (λ level,
      b ← getitem B_campus level;
      Ok (b + (if decide (level = MIN_LEVEL) then campus_hiring else 0)))
    LEVEL_RANGE;
  final_social ← dict_comp (λ level,
      b ← getitem B_social level;
      c ← getitem C level;
      Ok (b + c)) LEVEL_RANGE;
  final_structure ← dict_comp (λ level,
      c ← getitem final_campus level;
      s ← getitem final_social level;
      Ok (c + s)) LEVEL_RANGE;
  let predicted_total := sum_values final_structure in
  predicted_average_level ←
    (if decide (predicted_total ≠ 0) then
       xs ← gen_expr (λ level, n ← getitem final_structure level;
                               Ok (level * n)) LEVEL_RANGE;
       int_truediv (int_sum xs) predicted_total
     else Ok 0%float);
  current_total ←
    int_sum <$> gen_expr (λ l, c ← getitem current_campus_employees l;
                               s ← getitem current_social_employees l;
                               Ok (c + s)) LEVEL_RANGE;
  Ok (Locals.mk A_campus A_social B_campus B_social B total_B campus_hiring
                total_social_hiring_needed rounded_C initial_C C
                final_campus final_social final_structure
                predicted_total predicted_average_level current_total).

(** The tuple [predict_one_year] returns, with the names of its docstring. *)
Module Prediction.
Record t := mk {
  final_campus : gmap Z Z;
  final_social : gmap Z Z;
  final_structure : gmap Z Z;
  predicted_average_level : float;
  predicted_average_age : float;
  predicted_campus_ratio : float;
  campus_hiring : Z;
  social_hiring : gmap Z Z;
  predicted_total_age : float
}.
End Prediction.

Section Engine.
Context `{FloatSum}.

(** [sum(employees[level] * rates[level] for level in LEVEL_RANGE)]
    (lines 182-190). *)
Definition leaving_total (employees : gmap Z Z) (rates : gmap Z float)
  : result float :=
  float_sum <$> gen_expr (λ level, n ← getitem employees level;
                                   r ← getitem rates level;
                                   int_mul_float n r) LEVEL_RANGE.

(** [sum(employees[level] * rates[level] * leaving_ages[level] for ...)]
    (lines 192-200). *)
Definition leaving_total_age (employees : gmap Z Z)
    (rates leaving_ages : gmap Z float) : result float :=
  float_sum <$> gen_expr (λ level, n ← getitem employees level;
                                   r ← getitem rates level;
                                   x ← int_mul_float n r;
                                   a ← getitem leaving_ages level;
                                   Ok (x * a)%float) LEVEL_RANGE.

(** Lines 168-179: the age-mass the year starts from. *)
Definition start_total_age
    (current_campus_employees current_social_employees : gmap Z Z)
    (current_campus_ages current_social_ages : option (gmap Z float))
    (previous_predicted_total_age : option float) : result float :=
  match previous_predicted_total_age with
  | None =>
      match current_campus_ages, current_social_ages with
      | Some campus_ages, Some social_ages =>
          float_sum <$> gen_expr (λ l,
              c ← getitem current_campus_employees l;
              a ← getitem campus_ages l;
              x ← int_mul_float c a;
              s ← getitem current_social_employees l;
              b ← getitem social_ages l;
              y ← int_mul_float s b;
              Ok (x + y)%float) LEVEL_RANGE
      | _, _ => Raise (ValueError first_year_message)
      end
  | Some total_age => Ok total_age
  end.

(** Lines 167-233. *)
Definition age_phase (s : Locals.t)
    (current_campus_employees current_social_employees : gmap Z Z)
    (current_campus_ages current_social_ages : option (gmap Z float))
    (campus_leaving_ages social_leaving_ages social_new_hire_ages : gmap Z float)
    (campus_new_hire_age : float)
    (campus_attrition_rates social_attrition_rates : gmap Z float)
    (previous_predicted_total_age : option float) : result Prediction.t :=
  current_total_age ←
    start_total_age current_campus_employees current_social_employees
                    current_campus_ages current_social_ages
                    previous_predicted_total_age;
  campus_leaving_total ←
    leaving_total current_campus_employees campus_attrition_rates;
  social_leaving_total ←
    leaving_total current_social_employees social_attrition_rates;
  campus_leaving_total_age ←
    leaving_total_age current_campus_employees campus_attrition_rates
                      campus_leaving_ages;
  social_leaving_total_age ←
    leaving_total_age current_social_employees social_attrition_rates
                      social_leaving_ages;
  survived_total ←
    int_sub_float (Locals.current_total s)
                  (campus_leaving_total + social_leaving_total)%float;
  aged ← float_mul_int survived_total 1;
  campus_new ← int_mul_float (Locals.campus_hiring s) campus_new_hire_age;
  social_new ←
    float_sum <$> gen_expr (λ level, c ← getitem (Locals.C s) level;
                                     a ← getitem social_new_hire_ages level;
                                     int_mul_float c a) LEVEL_RANGE;
  let predicted_total_age :=
    (current_total_age
     - (campus_leaving_total_age + social_leaving_total_age)
     + aged + campus_new + social_new)%float in
  predicted_average_age ←
    (if decide (Locals.predicted_total s ≠ 0)
     then float_div_int predicted_total_age (Locals.predicted_total s)
     else Ok 0%float);
  predicted_campus_ratio ←
    (if decide (0 < Locals.predicted_total s) then
       xs ← gen_expr (getitem (Locals.final_campus s)) LEVEL_RANGE;
       int_truediv (int_sum xs) (Locals.predicted_total s)
     else Ok 0%float);
  Ok (Prediction.mk (Locals.final_campus s) (Locals.final_social s)
                    (Locals.final_structure s)
                    (Locals.predicted_average_level s)
                    predicted_average_age predicted_campus_ratio
                    (Locals.campus_hiring s) (Locals.C s)
                    predicted_total_age).

(** [HRPredictor.predict_one_year] *)
Definition predict_one_year
    (current_campus_employees current_social_employees : gmap Z Z)
    (current_campus_ages current_social_ages : option (gmap Z float))
    (campus_leaving_ages social_leaving_ages social_new_hire_ages : gmap Z float)
    (campus_new_hire_age : float)
    (campus_promotion_rates social_promotion_rates : gmap Z float)
    (campus_attrition_rates social_attrition_rates : gmap Z float)
    (hiring_ratios : gmap Z float) (campus_ratio : float) (target_total : Z)
    (previous_predicted_total_age : option float) : result Prediction.t :=
  s ← structure_phase current_campus_employees current_social_employees
                      campus_promotion_rates social_promotion_rates
                      campus_attrition_rates social_attrition_rates
                      hiring_ratios campus_ratio target_total;
  age_phase s current_campus_employees current_social_employees
            current_campus_ages current_social_ages
            campus_leaving_ages social_leaving_ages social_new_hire_ages
            campus_new_hire_age campus_attrition_rates social_attrition_rates
            previous_predicted_total_age.
End Engine.

(** ** [HRPredictor]: the multi-year forecast *)

(** [initial_params], as [DataProcessor.prepare_prediction_params] builds it:
    one entry per keyword, the two age dictionaries present. *)
Module Params.
Record t := mk {
  current_campus_employees : gmap Z Z;
  current_social_employees : gmap Z Z;
  current_campus_ages : gmap Z float;
  current_social_ages : gmap Z float;
  campus_leaving_ages : gmap Z float;
  social_leaving_ages : gmap Z float;
  social_new_hire_ages : gmap Z float;
  campus_new_hire_age : float;
  campus_promotion_rates : gmap Z float;
  social_promotion_rates : gmap Z float;
  campus_attrition_rates : gmap Z float;
  social_attrition_rates : gmap Z float;
  hiring_ratios : gmap Z float;
  campus_ratio : float;
  target_total : Z
}.
End Params.

(** One entry of [multi_year_results] (lines 294-307). *)
Module YearRecord.
Record t := mk {
  year : Z;
  current_campus : gmap Z Z;
  current_social : gmap Z Z;
  final_campus : gmap Z Z;
  final_social : gmap Z Z;
  final_structure : gmap Z Z;
  average_level : float;
  average_age : float;
  campus_ratio : float;
  campus_hiring : Z;
  social_hiring : gmap Z Z;
  total_age : float
}.
End YearRecord.

(** [d.copy()]: a new dictionary with the entries of [d]. *)
Definition copy {V} (d : gmap Z V) : gmap Z V := d.

(** The variables the loop of [predict_multiple_years] carries. *)
Module Loop.
Record t := mk {
  current_year_campus : gmap Z Z;
  current_year_social : gmap Z Z;
  previous_predicted_total_age : option float;
  multi_year_results : list YearRecord.t
}.
End Loop.

Section MultiYear.
Context `{FloatSum}.

(** The call of lines 261-278, on the head-counts and the age-mass the
    loop carries. *)
Definition yearly_call (initial_params : Params.t)
    (current_year_campus current_year_social : gmap Z Z)
    (current_year_campus_ages current_year_social_ages : gmap Z float)
    (previous_predicted_total_age : option float) (year : Z)
  : result Prediction.t :=
  predict_one_year
    current_year_campus
    current_year_social
    (if decide (year = 0) then Some current_year_campus_ages else None)
    (if decide (year = 0) then Some current_year_social_ages else None)
    (Params.campus_leaving_ages initial_params)
    (Params.social_leaving_ages initial_params)
    (Params.social_new_hire_ages initial_params)
    (Params.campus_new_hire_age initial_params)
    (Params.campus_promotion_rates initial_params)
    (Params.social_promotion_rates initial_params)
    (Params.campus_attrition_rates initial_params)
    (Params.social_attrition_rates initial_params)
    (Params.hiring_ratios initial_params)
    (Params.campus_ratio initial_params)
    (Params.target_total initial_params)
    (if decide (0 < year) then previous_predicted_total_age else None).

(** The record of lines 294-307. *)
Definition year_record (year : Z) (current_year_campus current_year_social : gmap Z Z)
    (r : Prediction.t) : YearRecord.t :=
  YearRecord.mk (year + 1) (copy current_year_campus) (copy current_year_social)
    (Prediction.final_campus r) (Prediction.final_social r)
    (Prediction.final_structure r) (Prediction.predicted_average_level r)
    (Prediction.predicted_average_age r) (Prediction.predicted_campus_ratio r)
    (Prediction.campus_hiring r) (Prediction.social_hiring r)
    (Prediction.predicted_total_age r).

(** One turn of the loop (lines 260-312). *)
Definition year_body (initial_params : Params.t)
    (current_year_campus_ages current_year_social_ages : gmap Z float)
    (st : Loop.t) (year : Z) : result Loop.t :=
  r ← yearly_call initial_params
        (Loop.current_year_campus st) (Loop.current_year_social st)
        current_year_campus_ages current_year_social_ages
        (Loop.previous_predicted_total_age st) year;
  Ok (Loop.mk (copy (Prediction.final_campus r))
              (copy (Prediction.final_social r))
              (Some (Prediction.predicted_total_age r))
              (Loop.multi_year_results st ++
               [year_record year (Loop.current_year_campus st)
                            (Loop.current_year_social st) r])).

(** [HRPredictor.predict_multiple_years] *)
Definition predict_multiple_years (initial_params : Params.t)
    (forecast_years : Z) : result (list YearRecord.t) :=
  let current_year_campus := copy (Params.current_campus_employees initial_params) in
  let current_year_social := copy (Params.current_social_employees initial_params) in
  let current_year_campus_ages := copy (Params.current_campus_ages initial_params) in
  let current_year_social_ages := copy (Params.current_social_ages initial_params) in
  Loop.multi_year_results <$>
    for_each (year_body initial_params current_year_campus_ages
                        current_year_social_ages)
             (range 0 forecast_years)
             (Loop.mk current_year_campus current_year_social None []).
End MultiYear.

(** ** [DataProcessor.calculate_current_metrics] *)

(** The columns the function reads, as [load_preset_from_csv] types them:
    [level], [campus_employee] and [social_employee] are int64,
    [campus_age] and [social_age] are float64. *)
Module Row.
Record t := mk {
  level : Z;
  campus_employee : Z;
  social_employee : Z;
  campus_age : float;
  social_age : float
}.
End Row.

Module Metrics.
Record t := mk {
  current_total : Z;
  current_average_level : float;
  current_average_age : float;
  current_campus_ratio : float
}.
End Metrics.

(** int64 arithmetic wraps around. *)
Definition wrap64 (z : Z) : Z := (z + 2 ^ 63) mod 2 ^ 64 - 2 ^ 63.
Definition add64 (a b : Z) : Z := wrap64 (a + b).
Definition mul64 (a b : Z) : Z := wrap64 (a * b).
(** The cast of an int64 to float64. *)
Definition float_of_int64 (n : Z) : float :=
  SF2Prim (binary_normalize prec emax n 0 false).

(** The arithmetic on whole columns and [Series.sum] stay in int64 (or
    float64); [int(...)] and the iteration of a column by the builtin [sum]
    give Python [int]s and [float]s, which the builtin adds and [/] divides
    as the interpreter does. *)
Definition calculate_current_metrics `{FloatSum} (df : list Row.t)
  : result Metrics.t :=
  let total_employees :=
    map (λ r, add64 (Row.campus_employee r) (Row.social_employee r)) df in
  let current_total := fold_left add64 total_employees 0 in
  current_average_level ←
    (if decide (current_total ≠ 0)
     then int_truediv
            (int_sum
               (map (λ r, mul64 (Row.level r)
                            (add64 (Row.campus_employee r)
                                   (Row.social_employee r))) df))
            current_total
     else Ok 0%float);
  let current_total_age :=
    float_sum
      (map (λ r, PrimFloat.add
                   (PrimFloat.mul (float_of_int64 (Row.campus_employee r))
                                  (Row.campus_age r))
                   (PrimFloat.mul (float_of_int64 (Row.social_employee r))
                                  (Row.social_age r)))
           df) in
  current_average_age ←
    (if decide (current_total ≠ 0)
     then float_div_int current_total_age current_total
     else Ok 0%float);
  let campus_total := fold_left add64 (map Row.campus_employee df) 0 in
  let current_campus_ratio :=
    if decide (0 < current_total)
    then PrimFloat.div (float_of_int64 campus_total) (float_of_int64 current_total)
    else 0%float in
  Ok (Metrics.mk current_total current_average_level current_average_age
                 current_campus_ratio).

(** ** The concrete scenario of the specification *)

(** [{level: v for level in LEVEL_RANGE}] *)
Definition constant_dict {V} (v : V) : gmap Z V :=
  list_to_map ((λ level, (level, v)) <$> LEVEL_RANGE).

(** The literal [0.1]: the binary64 nearest to it. *)
Definition one_tenth : float := 0x1.999999999999ap-4%float.

Module Scenario.
Definition employees : gmap Z Z := <[1 := 100]> (constant_dict 0).
Definition ages : gmap Z float := constant_dict 30%float.
Definition promotion_rates : gmap Z float := constant_dict 0%float.
Definition attrition_rates : gmap Z float := constant_dict one_tenth.
Definition hiring_ratios : gmap Z float := <[1 := 1%float]> (constant_dict 0%float).
Definition campus_ratio : float := 0.5%float.
Definition target_total : Z := 200.
End Scenario.

(** The first-year call of the scenario, with the left-to-right [sum]. *)
Definition scenario_call : result Prediction.t :=
  @predict_one_year float_sum_left
    Scenario.employees Scenario.employees
    (Some Scenario.ages) (Some Scenario.ages)
    Scenario.ages Scenario.ages Scenario.ages 30%float
    Scenario.promotion_rates Scenario.promotion_rates
    Scenario.attrition_rates Scenario.attrition_rates
    Scenario.hiring_ratios Scenario.campus_ratio Scenario.target_total None.

(** Ten campus employees at the top level, half of them promoted. *)
Module TopLevel.
Definition campus_employees : gmap Z Z := <[7 := 10]> (constant_dict 0).
Definition social_employees : gmap Z Z := constant_dict 0.
Definition campus_promotion_rates : gmap Z float :=
  <[7 := 0.5%float]> (constant_dict 0%float).
Definition zero_rates : gmap Z float := constant_dict 0%float.
Definition hiring_ratios : gmap Z float := <[1 := 1%float]> (constant_dict 0%float).
Definition call : result Locals.t :=
  structure_phase campus_employees social_employees
    campus_promotion_rates zero_rates zero_rates zero_rates
    hiring_ratios 0.5%float 10.
End TopLevel.

(** Ten employees per channel at level 1, promotion rate 0.5 and attrition
    rate 0.75 there, and a target of 0. *)
Module Shrink.
Definition employees : gmap Z Z := <[1 := 10]> (constant_dict 0).
Definition ages : gmap Z float := constant_dict 30%float.
Definition promotion_rates : gmap Z float :=
  <[1 := 0.5%float]> (constant_dict 0%float).
Definition attrition_rates : gmap Z float :=
  <[1 := 0.75%float]> (constant_dict 0%float).
Definition hiring_ratios : gmap Z float := <[1 := 1%float]> (constant_dict 0%float).
Definition call : result Prediction.t :=
  @predict_one_year float_sum_left employees employees (Some ages) (Some ages)
    ages ages ages 30%float promotion_rates promotion_rates
    attrition_rates attrition_rates hiring_ratios 0.5%float 0 None.
End Shrink.

(** ** Statements of the passes, level by level *)

(** The head-count [b] a channel holds at [level] after attrition:
    [a = n - out + inn] is what promotion leaves of the [n] employees, with
    [out] promoted away and [inn] promoted in from below, and
    [b = round(a - n * r)] for the attrition rate [r]: the product takes the
    original head-count [n], the difference the promoted one. *)
Definition attrition_entry (headcount : gmap Z Z)
    (promotion_rate attrition_rate : gmap Z float) (A : gmap Z Z)
    (level b : Z) : Prop :=
  ∃ (n out inn : Z) (r fn fa : float),
    headcount !! level = Some n
    ∧ promoted headcount promotion_rate level = Ok out
    ∧ promoted_in headcount promotion_rate level = Ok inn
    ∧ A !! level = Some (n - out + inn)
    ∧ attrition_rate !! level = Some r
    ∧ float_of_int n = Ok fn
    ∧ float_of_int (n - out + inn) = Ok fa
    ∧ round (fa - fn * r)%float = Ok b.

(** What promotion leaves at [level]: of the [n] employees, [out] are
    promoted away, and [inn] arrive from the level below (none at level 1). *)
Definition promotion_entry (headcount : gmap Z Z) (promotion_rate : gmap Z float)
    (A : gmap Z Z) (level : Z) : Prop :=
  ∃ n out inn : Z,
    headcount !! level = Some n
    ∧ promoted headcount promotion_rate level = Ok out
    ∧ (level = MIN_LEVEL → inn = 0)
    ∧ (MIN_LEVEL < level → promoted headcount promotion_rate (level - 1) = Ok inn)
    ∧ A !! level = Some (n - out + inn).

(** A seven-level organisation that grows: the social need of 34 is split
    8, 8, 8, 4, 4, 0, 0 by rounding, and the residual 2 goes to level 1. *)
Module Growth.
Definition levels {V} (l : list V) : gmap Z V := list_to_map (zip LEVEL_RANGE l).
Definition campus_employees : gmap Z Z := levels [40; 30; 20; 10; 5; 3; 1].
Definition social_employees : gmap Z Z := levels [20; 30; 30; 20; 10; 5; 2].
Definition campus_ages : gmap Z float :=
  levels [24; 25; 26; 27; 28; 29; 30]%float.
Definition social_ages : gmap Z float :=
  levels [28; 29.5; 31; 32.5; 34; 35.5; 37]%float.
Definition promotion_rates : gmap Z float :=
  levels [0.25; 0.25; 0.125; 0.125; 0.0625; 0.0625; 0]%float.
Definition attrition_rates : gmap Z float :=
  levels [0.25; 0.125; 0.125; 0.125; 0.0625; 0.0625; 0.0625]%float.
Definition hiring_ratios : gmap Z float :=
  levels [0.25; 0.25; 0.25; 0.125; 0.125; 0; 0]%float.
Definition campus_ratio : float := 0.25%float.
Definition target_total : Z := 303.
Definition structure : result Locals.t :=
  structure_phase campus_employees social_employees
    promotion_rates promotion_rates attrition_rates attrition_rates
    hiring_ratios campus_ratio target_total.
Definition params : Params.t :=
  Params.mk campus_employees social_employees campus_ages social_ages
    campus_ages social_ages social_ages 23%float
    promotion_rates promotion_rates attrition_rates attrition_rates
    hiring_ratios campus_ratio target_total.
End Growth.

(** The first-year call on the growing organisation. *)
Definition growth_call : result Prediction.t :=
  @predict_one_year float_sum_left
    Growth.campus_employees Growth.social_employees
    (Some Growth.campus_ages) (Some Growth.social_ages)
    Growth.campus_ages Growth.social_ages Growth.social_ages 23%float
    Growth.promotion_rates Growth.promotion_rates
    Growth.attrition_rates Growth.attrition_rates
    Growth.hiring_ratios Growth.campus_ratio Growth.target_total None.

(** ** Statements of the age-mass, in the words of the specification *)

Section AgeMass.
Context `{FloatSum}.

(** [total] is the [sum] over the seven levels of the terms [term] relates
    to them. *)
Definition level_sum (term : Z → float → Prop) (total : float) : Prop :=
  ∃ xs, Forall2 term LEVEL_RANGE xs ∧ total = float_sum xs.

(** [headcount[L] * age[L]] over both channels: the seed of the age-mass. *)
Definition seed_term (campus social : gmap Z Z) (campus_age social_age : gmap Z float)
    (level : Z) (x : float) : Prop :=
  ∃ (nc ns : Z) (ac a_s fc fs : float),
    campus !! level = Some nc ∧ social !! level = Some ns
    ∧ campus_age !! level = Some ac ∧ social_age !! level = Some a_s
    ∧ float_of_int nc = Ok fc ∧ float_of_int ns = Ok fs
    ∧ x = (fc * ac + fs * a_s)%float.


(** [original_headcount[L] * attrition_rate[L] * leaving_age[L]]: the
    age-mass attrition removes. *)
Definition attrition_age_term (headcount : gmap Z Z)
    (rate leaving_age : gmap Z float) (level : Z) (x : float) : Prop :=
  ∃ (n : Z) (r a fn : float),
    headcount !! level = Some n ∧ rate !! level = Some r
    ∧ leaving_age !! level = Some a
    ∧ float_of_int n = Ok fn ∧ x = (fn * r * a)%float.


(** The age-mass the year starts from: the carried scalar, or in the first
    year the seed. *)
Definition start_age_mass (campus social : gmap Z Z)
    (campus_age social_age : option (gmap Z float)) (carried : option float)
    (start : float) : Prop :=
  match carried with
  | Some total_age => start = total_age
  | None => ∃ ca sa, campus_age = Some ca ∧ social_age = Some sa
                     ∧ level_sum (seed_term campus social ca sa) start
  end.
End AgeMass.


(** ** Statements of the input contract *)

(** A level-keyed mapping has an entry for each of the seven levels. *)
Definition covers {V} (d : gmap Z V) : Prop :=
  ∀ level, level ∈ LEVEL_RANGE → is_Some (d !! level).


(** The precondition of lines 168-171: this is the first year and one of
    the two age mappings is missing. *)
Definition ages_missing (current_campus_ages current_social_ages : option (gmap Z float))
    (previous_predicted_total_age : option float) : Prop :=
  previous_predicted_total_age = None
  ∧ (current_campus_ages = None ∨ current_social_ages = None).


(** ** Statement of the chaining of the years *)

Section Chain.
Context `{FloatSum}.

(** [records] are the entries of consecutive years, the first of index
    [year] starting from the head-counts [campus], [social] and the carried
    age-mass [carried]; each comes from one call of [predict_one_year], and
    hands its final head-counts and its age-mass to the next. *)
Fixpoint years_chain (initial_params : Params.t)
    (campus_ages social_ages : gmap Z float) (year : Z)
    (campus social : gmap Z Z) (carried : option float)
    (records : list YearRecord.t) : Prop :=
  match records with
  | [] => True
  | r :: records =>
      ∃ p, yearly_call initial_params campus social campus_ages social_ages
             carried year = Ok p
           ∧ r = year_record year campus social p
           ∧ years_chain initial_params campus_ages social_ages (year + 1)
               (Prediction.final_campus p) (Prediction.final_social p)
               (Some (Prediction.predicted_total_age p)) records
  end.
End Chain.

(** The three-year forecast of the growing organisation. *)
Definition growth_forecast : result (list YearRecord.t) :=
  @predict_multiple_years float_sum_left Growth.params 3.

(** An input table with nobody in it: seven rows, one per level. *)
Definition empty_table : list Row.t :=
  map (λ level, Row.mk level 0 0 30%float 32.5%float) LEVEL_RANGE.

(** The table of the growing organisation. *)
Definition growth_table : list Row.t :=
  [Row.mk 1 40 20 24 28; Row.mk 2 30 30 25 29.5; Row.mk 3 20 30 26 31;
   Row.mk 4 10 20 27 32.5; Row.mk 5 5 10 28 34; Row.mk 6 3 5 29 35.5;
   Row.mk 7 1 2 30 37]%float.

(** ** [predict_one_year] on references

    The same method with its dictionaries as objects of a store: an
    argument is a reference, [{}] and a comprehension allocate a new
    object, [d[k] = v] updates the object [d] refers to in place, and an
    expression reads the objects as they are when it is evaluated. *)

Module Store.

Definition ref := positive.

(** The objects: dictionaries of [int]s and dictionaries of [float]s, each
    kind under its references. *)
Record heap := Heap {
  int_dicts : gmap ref (gmap Z Z);
  float_dicts : gmap ref (gmap Z float)
}.

(** What a reference refers to (the empty dictionary for a reference that
    was never allocated: the interpreter has none). *)
Definition int_dict (h : heap) (r : ref) : gmap Z Z :=
  default ∅ (int_dicts h !! r).
Definition float_dict (h : heap) (r : ref) : gmap Z float :=
  default ∅ (float_dicts h !! r).

(** A computation on the store: it ends in a value or an exception, and
    leaves a store either way. *)
Definition M (A : Type) : Type := heap → heap * result A.

#[global] Instance M_ret : MRet M := λ A a h, (h, Ok a).
#[global] Instance M_bind : MBind M := λ A B f m h,
  match m h with
  | (h', Ok a) => f a h'
  | (h', Raise e) => (h', Raise e)
  end.

(** An expression: it reads the store. *)
Definition eval {A} (e : heap → result A) : M A := λ h, (h, e h).

(** [{}] *)
Definition new_dict : M ref := λ h,
  let r := fresh (dom (int_dicts h)) in
  (Heap (<[r := ∅]> (int_dicts h)) (float_dicts h), Ok r).

(** [d[k] = v] *)
Definition setitem (d : ref) (k v : Z) : M unit := λ h,
  (Heap (alter (insert k v) d (int_dicts h)) (float_dicts h), Ok tt).

(** [for k in ks: body(k)] *)
Fixpoint for_each (body : Z → M unit) (ks : list Z) : M unit :=
  match ks with
  | [] => mret tt
  | k :: ks => body k ≫= λ _, for_each body ks
  end.

(** [{k: f(k) for k in ks}] *)
Definition dict_comp (f : Z → heap → result Z) (ks : list Z) : M ref :=
  d ← new_dict;
  _ ← for_each (λ k, v ← eval (f k); setitem d k v) ks;
  mret d.

(** The tuple returned: references to the four new dictionaries, and the
    numbers. *)
Module Tuple.
Record t := mk {
  final_campus : ref;
  final_social : ref;
  final_structure : ref;
  predicted_average_level : float;
  predicted_average_age : float;
  predicted_campus_ratio : float;
  campus_hiring : Z;
  social_hiring : ref;
  predicted_total_age : float
}.
End Tuple.

Section Engine.
Context `{FloatSum}.

Definition predict_one_year
    (current_campus_employees current_social_employees : ref)
    (current_campus_ages current_social_ages : option ref)
    (campus_leaving_ages social_leaving_ages social_new_hire_ages : ref)
    (campus_new_hire_age : float)
    (campus_promotion_rates social_promotion_rates : ref)
    (campus_attrition_rates social_attrition_rates : ref)
    (hiring_ratios : ref) (campus_ratio : float) (target_total : Z)
    (previous_predicted_total_age : option float) : M Tuple.t :=
  (* lines 80-81 *)
  A_campus ← new_dict;
  A_social ← new_dict;
  (* lines 83-94 *)
  _ ← for_each (λ level,
      promoted_out_campus ← eval (λ h,
        promoted (int_dict h current_campus_employees)
                 (float_dict h campus_promotion_rates) level);
      promoted_out_social ← eval (λ h,
        promoted (int_dict h current_social_employees)
                 (float_dict h social_promotion_rates) level);
      promoted_in_campus ← eval (λ h,
        promoted_in (int_dict h current_campus_employees)
                    (float_dict h campus_promotion_rates) level);
      promoted_in_social ← eval (λ h,
        promoted_in (int_dict h current_social_employees)
                    (float_dict h social_promotion_rates) level);
      a_campus ← eval (λ h,
        after_promotion (int_dict h current_campus_employees) level
                        promoted_out_campus promoted_in_campus);
      _ ← setitem A_campus level a_campus;
      a_social ← eval (λ h,
        after_promotion (int_dict h current_social_employees) level
                        promoted_out_social promoted_in_social);
      setitem A_social level a_social) LEVEL_RANGE;
  (* lines 97-110 *)
  B_campus ← dict_comp (λ level h,
      after_attrition (int_dict h A_campus)
                      (int_dict h current_campus_employees)
                      (float_dict h campus_attrition_rates) level) LEVEL_RANGE;
  B_social ← dict_comp (λ level h,
      after_attrition (int_dict h A_social)
                      (int_dict h current_social_employees)
                      (float_dict h social_attrition_rates) level) LEVEL_RANGE;
  B ← dict_comp (λ level h,
      c ← getitem (int_dict h B_campus) level;
      s ← getitem (int_dict h B_social) level;
      Ok (c + s)) LEVEL_RANGE;
  (* lines 113-115 *)
  total_B ← eval (λ h, Ok (sum_values (int_dict h B)));
  campus_hiring ← eval (λ _, x ← int_mul_float target_total campus_ratio; round x);
  let total_social_hiring_needed := target_total - total_B - campus_hiring in
  (* lines 118-129 *)
  initial_C ← dict_comp (λ level h,
      r ← getitem (float_dict h hiring_ratios) level;
      x ← int_mul_float total_social_hiring_needed r;
      round x) LEVEL_RANGE;
  initial_total ← eval (λ h, Ok (sum_values (int_dict h initial_C)));
  _ ← (if decide (initial_total ≠ total_social_hiring_needed) then
         let diff := total_social_hiring_needed - initial_total in
         max_hiring_level ← eval (λ h,
           max_key (getitem (int_dict h initial_C)) LEVEL_RANGE);
         v ← eval (λ h, getitem (int_dict h initial_C) max_hiring_level);
         setitem initial_C max_hiring_level (v + diff)
       else mret tt);
  (* lines 131-150 *)
  C ← dict_comp (λ level h,
      v ← getitem (int_dict h initial_C) level; Ok (Z.max 0 v)) LEVEL_RANGE;
  final_campus ← dict_comp (λ level h,
      b ← getitem (int_dict h B_campus) level;
      Ok (b + (if decide (level = MIN_LEVEL) then campus_hiring else 0)))
    LEVEL_RANGE;
  final_social ← dict_comp (λ level h,
      b ← getitem (int_dict h B_social) level;
      c ← getitem (int_dict h C) level;
      Ok (b + c)) LEVEL_RANGE;
  final_structure ← dict_comp (λ level h,
      c ← getitem (int_dict h final_campus) level;
      s ← getitem (int_dict h final_social) level;
      Ok (c + s)) LEVEL_RANGE;
  (* lines 153-165 *)
  predicted_total ← eval (λ h, Ok (sum_values (int_dict h final_structure)));
  predicted_average_level ← eval (λ h,
      if decide (predicted_total ≠ 0) then
        xs ← gen_expr (λ level, n ← getitem (int_dict h final_structure) level;
                                Ok (level * n)) LEVEL_RANGE;
        int_truediv (int_sum xs) predicted_total
      else Ok 0%float);
  current_total ← eval (λ h,
      int_sum <$> gen_expr (λ l,
          c ← getitem (int_dict h current_campus_employees) l;
          s ← getitem (int_dict h current_social_employees) l;
          Ok (c + s)) LEVEL_RANGE);
  (* lines 167-221: expressions only *)
  ages ← eval (λ h,
      age_phase
        (Locals.mk (int_dict h A_campus) (int_dict h A_social)
                   (int_dict h B_campus) (int_dict h B_social) (int_dict h B)
                   total_B campus_hiring total_social_hiring_needed
                   (int_dict h initial_C) (int_dict h initial_C) (int_dict h C)
                   (int_dict h final_campus) (int_dict h final_social)
                   (int_dict h final_structure)
                   predicted_total predicted_average_level current_total)
        (int_dict h current_campus_employees)
        (int_dict h current_social_employees)
        (float_dict h <$> current_campus_ages)
        (float_dict h <$> current_social_ages)
        (float_dict h campus_leaving_ages) (float_dict h social_leaving_ages)
        (float_dict h social_new_hire_ages) campus_new_hire_age
        (float_dict h campus_attrition_rates)
        (float_dict h social_attrition_rates)
        previous_predicted_total_age);
  (* lines 223-233 *)
  mret (Tuple.mk final_campus final_social final_structure
          predicted_average_level
          (Prediction.predicted_average_age ages)
          (Prediction.predicted_campus_ratio ages)
          campus_hiring C
          (Prediction.predicted_total_age ages)).
End Engine.

End Store.

(** The growing organisation in a store: the two head-count dictionaries
    at references 1 and 2, the dictionaries of ages, rates and ratios at
    references 1 to 6. *)
Definition growth_heap : Store.heap :=
  Store.Heap
    (<[1%positive := Growth.campus_employees]>
       (<[2%positive := Growth.social_employees]> ∅))
    (<[1%positive := Growth.campus_ages]>
       (<[2%positive := Growth.social_ages]>
          (<[3%positive := Growth.promotion_rates]>
             (<[4%positive := Growth.attrition_rates]>
                (<[5%positive := Growth.hiring_ratios]> ∅))))).

Definition growth_store_call : Store.heap * result Store.Tuple.t :=
  @Store.predict_one_year float_sum_left
    1%positive 2%positive (Some 1%positive) (Some 2%positive)
    1%positive 2%positive 2%positive 23%float
    3%positive 3%positive 4%positive 4%positive
    5%positive Growth.campus_ratio Growth.target_total None growth_heap.

(** The tuple of values a tuple of references stands for in a store. *)
Definition tuple_values (h : Store.heap) (t : Store.Tuple.t) : Prediction.t :=
  Prediction.mk
    (Store.int_dict h (Store.Tuple.final_campus t))
    (Store.int_dict h (Store.Tuple.final_social t))
    (Store.int_dict h (Store.Tuple.final_structure t))
    (Store.Tuple.predicted_average_level t)
    (Store.Tuple.predicted_average_age t)
    (Store.Tuple.predicted_campus_ratio t)
    (Store.Tuple.campus_hiring t)
    (Store.int_dict h (Store.Tuple.social_hiring t))
    (Store.Tuple.predicted_total_age t).

(** ** Statements about the store *)

(** [h] still holds every object of [h0], unchanged. *)
Definition keeps (h0 h : Store.heap) : Prop :=
  Store.float_dicts h = Store.float_dicts h0
  ∧ ∀ r d, Store.int_dicts h0 !! r = Some d → Store.int_dicts h !! r = Some d.

(** [r] refers to no object of [h0]. *)
Definition is_new (h0 : Store.heap) (r : Store.ref) : Prop :=
  Store.int_dicts h0 !! r = None.

(** Started in a store that keeps [h0], the computation [m] ends in one
    that keeps [h0], with a value that satisfies [φ] if it returns. *)
Definition frames {A} (h0 : Store.heap) (m : Store.M A) (φ : A → Prop) : Prop :=
  ∀ h, keeps h0 h → keeps h0 (m h).1 ∧ ∀ a, (m h).2 = Ok a → φ a.

(** ** Sums over the levels *)

(** [sum(f(k) for k in ks)] for a total [f]. *)
Definition sum_over (ks : list Z) (f : Z → Z) : Z :=
  foldr (λ k acc, f k + acc) 0 ks.

(** [d[level]], 0 where the dictionary has no entry. *)
Definition entry (d : gmap Z Z) (level : Z) : Z := default 0 (d !! level).

(** The head-count a level-keyed dictionary holds on the seven levels. *)
Definition level_total (d : gmap Z Z) : Z := sum_over LEVEL_RANGE (entry d).

(** The keys of [d] are the seven levels, no more, no less. *)
Definition keyed_by_levels {V} (d : gmap Z V) : Prop :=
  ∀ k, is_Some (d !! k) ↔ k ∈ LEVEL_RANGE.

(** The head-count [round(employees[level] * rates[level])] promoted out of
    [level], 0 where the expression raises. *)
Definition promoted_count (employees : gmap Z Z) (rates : gmap Z float)
    (level : Z) : Z :=
  match promoted employees rates level with
  | Ok out => out
  | Raise _ => 0
  end.

(** The growing organisation with stray entries: keys 0, 8 and -3 besides
    the seven levels. *)
Module Stray.
Definition campus_employees : gmap Z Z :=
  <[0 := 999]> (<[8 := 5]> Growth.campus_employees).
Definition social_employees : gmap Z Z := <[-3 := 1]> Growth.social_employees.
Definition promotion_rates : gmap Z float :=
  <[8 := 0.5%float]> Growth.promotion_rates.
Definition hiring_ratios : gmap Z float :=
  <[0 := 1%float]> Growth.hiring_ratios.
Definition call : result Prediction.t :=
  @predict_one_year float_sum_left
    campus_employees social_employees
    (Some Growth.campus_ages) (Some Growth.social_ages)
    Growth.campus_ages Growth.social_ages Growth.social_ages 23%float
    promotion_rates promotion_rates
    Growth.attrition_rates Growth.attrition_rates
    hiring_ratios Growth.campus_ratio Growth.target_total None.
End Stray.

(** The growing organisation without an entry for level 5 in the social
    leaving ages. *)
Definition growth_call_without_leaving_age : result Prediction.t :=
  @predict_one_year float_sum_left
    Growth.campus_employees Growth.social_employees
    (Some Growth.campus_ages) (Some Growth.social_ages)
    Growth.campus_ages (delete 5 Growth.social_ages) Growth.social_ages 23%float
    Growth.promotion_rates Growth.promotion_rates
    Growth.attrition_rates Growth.attrition_rates
    Growth.hiring_ratios Growth.campus_ratio Growth.target_total None.


(** Two mappings with the same entries on the seven levels. *)
Definition agree_on_levels {V} (d d' : gmap Z V) : Prop :=
  ∀ level, level ∈ LEVEL_RANGE → d !! level = d' !! level.

(** The two-year forecast of the growing organisation. *)
Definition growth_forecast_two : result (list YearRecord.t) :=
  @predict_multiple_years float_sum_left Growth.params 2.

(** ** Statements about the input table *)

(** The head-count of a table, as an integer. *)
Definition table_total (df : list Row.t) : Z :=
  foldr (λ r acc, Row.campus_employee r + Row.social_employee r + acc) 0 df.

(** The campus head-count of a table. *)
Definition table_campus_total (df : list Row.t) : Z :=
  foldr (λ r acc, Row.campus_employee r + acc) 0 df.

(** The values of an int64. *)
Definition int64_range (z : Z) : Prop := - 2 ^ 63 ≤ z < 2 ^ 63.

(** The growing organisation with its rows in another order. *)
Definition growth_table_shuffled : list Row.t :=
  [Row.mk 4 10 20 27 32.5; Row.mk 7 1 2 30 37; Row.mk 1 40 20 24 28;
   Row.mk 6 3 5 29 35.5; Row.mk 2 30 30 25 29.5; Row.mk 5 5 10 28 34;
   Row.mk 3 20 30 26 31]%float.

(** Two rows whose head-counts add up beyond an int64. *)
Definition overflowing_table : list Row.t :=
  [Row.mk 1 (2 ^ 62) (2 ^ 62) 30 30; Row.mk 2 1 0 30 30]%float.

(** Two rows of level 7 whose weighted head-counts add up beyond an int64,
    while the head-counts themselves do not. *)
Definition senior_table : list Row.t :=
  [Row.mk 7 (2 ^ 60) 0 30 30; Row.mk 7 (2 ^ 60) 0 30 30]%float.

(** * Properties *)

(** ** The error monad and the comprehensions *)

Lemma bind_Ok {A B} (m : result A) (f : A → result B) (b : B) :
  m ≫= f = Ok b ↔ ∃ a, m = Ok a ∧ f a = Ok b.
Proof.
  destruct m as [a|e]; simpl; split.
  - intros Hf. by exists a.
  - by intros (a' & [= <-] & Hf).
  - intros [=].
  - by intros (a' & [=] & _).
Qed.

Lemma fmap_Ok {A B} (m : result A) (f : A → B) (b : B) :
  f <$> m = Ok b ↔ ∃ a, m = Ok a ∧ b = f a.
Proof.
  destruct m as [a|e]; simpl; split.
  - intros [= <-]. by exists a.
  - by intros (a' & [= <-] & ->).
  - intros [=].
  - by intros (a' & [=] & _).
Qed.

Lemma bind_Ok_l {A B} (a : A) (f : A → result B) : Ok a ≫= f = f a.
Proof. reflexivity. Qed.


Lemma getitem_Ok {V} (d : gmap Z V) (k : Z) (v : V) :
  getitem d k = Ok v ↔ d !! k = Some v.
Proof.
  unfold getitem. destruct (d !! k); split; congruence.
Qed.

(** Reading a chain of binds that ended in [Ok]. *)
Ltac ok_inv H :=
  repeat match type of H with
         | _ ≫= _ = Ok _ =>
             let x := fresh "x" in
             let Hx := fresh "Hx" in
             apply bind_Ok in H as (x & Hx & H)
         | Ok _ = Ok _ => injection H as H
         end.

Lemma elem_of_LEVEL_RANGE (level : Z) :
  level ∈ LEVEL_RANGE ↔ MIN_LEVEL ≤ level ≤ MAX_LEVEL.
Proof.
  unfold LEVEL_RANGE, range, MIN_LEVEL, MAX_LEVEL.
  rewrite elem_of_seqZ. lia.
Qed.

Lemma NoDup_LEVEL_RANGE : NoDup LEVEL_RANGE.
Proof. apply NoDup_seqZ. Qed.

Lemma LEVEL_RANGE_levels : LEVEL_RANGE = [1; 2; 3; 4; 5; 6; 7].
Proof. reflexivity. Qed.

Lemma dict_fill_lookup {V} (f : Z → result V) (ks : list Z) (d m : gmap Z V) :
  dict_fill f ks d = Ok m →
  ∀ k, (k ∈ ks → ∃ v, f k = Ok v ∧ m !! k = Some v)
       ∧ (k ∉ ks → m !! k = d !! k).
Proof.
  revert d. induction ks as [|k0 ks IH]; intros d Hm k; simpl in Hm.
  - injection Hm as <-. split; [by intros ?%elem_of_nil | done].
  - apply bind_Ok in Hm as (v0 & Hv0 & Hm).
    destruct (IH _ Hm k) as [Hin Hout].
    split.
    + intros Hk. destruct (decide (k ∈ ks)) as [Hks|Hks]; [by apply Hin|].
      apply elem_of_cons in Hk as [->|Hk]; [|done].
      exists v0. split; [done|]. by rewrite Hout, lookup_insert_eq.
    + intros Hk. apply not_elem_of_cons in Hk as [Hne Hks].
      by rewrite Hout, lookup_insert_ne.
Qed.

Lemma dict_comp_lookup {V} (f : Z → result V) (ks : list Z) (m : gmap Z V) :
  dict_comp f ks = Ok m →
  ∀ k, (k ∈ ks → ∃ v, f k = Ok v ∧ m !! k = Some v)
       ∧ (k ∉ ks → m !! k = None).
Proof.
  intros Hm k. destruct (dict_fill_lookup _ _ _ _ Hm k) as [Hin Hout].
  split; [done|]. intros Hk. by rewrite Hout.
Qed.

(** A comprehension whose expression evaluates at every key yields a
    dictionary. *)
Lemma dict_fill_total {V} (f : Z → result V) (ks : list Z) (d : gmap Z V) :
  (∀ k, k ∈ ks → ∃ v, f k = Ok v) → ∃ m, dict_fill f ks d = Ok m.
Proof.
  revert d. induction ks as [|k ks IH]; intros d Hf; simpl; [by eexists|].
  destruct (Hf k) as [v Hv]; [by left|]. rewrite Hv. simpl.
  apply IH. intros k' Hk'. apply Hf. by right.
Qed.


(** [sum(d.values())] adds the entries of [d] whatever their order. *)
Lemma sum_values_insert (d : gmap Z Z) (k v : Z) :
  d !! k = None → sum_values (<[k := v]> d) = sum_values d + v.
Proof.
  intros Hk. unfold sum_values.
  rewrite map_fold_insert_L; [done| |done].
  intros. lia.
Qed.

Lemma sum_values_keys (ks : list Z) (d : gmap Z Z) (g : Z → Z) :
  NoDup ks →
  (∀ k, k ∈ ks → d !! k = Some (g k)) →
  (∀ k, k ∉ ks → d !! k = None) →
  sum_values d = foldr (λ k acc, g k + acc) 0 ks.
Proof.
  intros Hnd. revert d. induction Hnd as [|k ks Hk Hnd IH]; intros d Hin Hout.
  - replace d with (∅ : gmap Z Z); [done|].
    symmetry. apply map_eq. intros k. rewrite lookup_empty. apply Hout.
    apply not_elem_of_nil.
  - rewrite <- (insert_delete_id d k (g k)) by (apply Hin; by left).
    rewrite sum_values_insert by apply lookup_delete_eq.
    rewrite (IH (delete k d)); [simpl; lia| |].
    + intros k' Hk'. rewrite lookup_delete_ne by (intros ->; done).
      apply Hin. by right.
    + intros k' Hk'. destruct (decide (k = k')) as [->|Hne].
      * apply lookup_delete_eq.
      * rewrite lookup_delete_ne by done. apply Hout.
        by apply not_elem_of_cons.
Qed.

(** ** The steps of [predict_one_year], read back from its locals *)

Lemma structure_phase_inv cc cs cpr spr car sar hr ratio target s :
  structure_phase cc cs cpr spr car sar hr ratio target = Ok s →
  promotion_pass cc cs cpr spr = Ok (Locals.A_campus s, Locals.A_social s)
  ∧ dict_comp (after_attrition (Locals.A_campus s) cc car) LEVEL_RANGE
    = Ok (Locals.B_campus s)
  ∧ dict_comp (after_attrition (Locals.A_social s) cs sar) LEVEL_RANGE
    = Ok (Locals.B_social s)
  ∧ dict_comp (λ level, c ← getitem (Locals.B_campus s) level;
                        s' ← getitem (Locals.B_social s) level;
                        Ok (c + s')) LEVEL_RANGE = Ok (Locals.B s)
  ∧ Locals.total_B s = sum_values (Locals.B s)
  ∧ (x ← int_mul_float target ratio; round x) = Ok (Locals.campus_hiring s)
  ∧ Locals.total_social_hiring_needed s
    = target - Locals.total_B s - Locals.campus_hiring s
  ∧ rounded_allocation (Locals.total_social_hiring_needed s) hr
    = Ok (Locals.rounded_C s)
  ∧ adjust_allocation (Locals.total_social_hiring_needed s) (Locals.rounded_C s)
    = Ok (Locals.initial_C s)
  ∧ clamp_allocation (Locals.initial_C s) = Ok (Locals.C s)
  ∧ dict_comp (λ level,
        b ← getitem (Locals.B_campus s) level;
        Ok (b + (if decide (level = MIN_LEVEL) then Locals.campus_hiring s else 0)))
      LEVEL_RANGE = Ok (Locals.final_campus s)
  ∧ dict_comp (λ level,
        b ← getitem (Locals.B_social s) level;
        c ← getitem (Locals.C s) level;
        Ok (b + c)) LEVEL_RANGE = Ok (Locals.final_social s)
  ∧ dict_comp (λ level,
        c ← getitem (Locals.final_campus s) level;
        s' ← getitem (Locals.final_social s) level;
        Ok (c + s')) LEVEL_RANGE = Ok (Locals.final_structure s)
  ∧ Locals.predicted_total s = sum_values (Locals.final_structure s).
Proof.
  unfold structure_phase. intros Hs.
  apply bind_Ok in Hs as ([Ac As] & HA & Hs).
  apply bind_Ok in Hs as (Bc & HBc & Hs).
  apply bind_Ok in Hs as (Bs & HBs & Hs).
  apply bind_Ok in Hs as (B & HB & Hs).
  apply bind_Ok in Hs as (hiring & Hhiring & Hs).
  apply bind_Ok in Hs as (rC & HrC & Hs).
  apply bind_Ok in Hs as (iC & HiC & Hs).
  apply bind_Ok in Hs as (C & HC & Hs).
  apply bind_Ok in Hs as (fc & Hfc & Hs).
  apply bind_Ok in Hs as (fs & Hfs & Hs).
  apply bind_Ok in Hs as (ft & Hft & Hs).
  apply bind_Ok in Hs as (lvl & Hlvl & Hs).
  apply bind_Ok in Hs as (ct & Hct & Hs).
  injection Hs as <-. simpl. by repeat split.
Qed.

(** Step 1, level by level. *)
Lemma promotion_loop_lookup cc cs cpr spr (ks : list Z) (A A' : gmap Z Z * gmap Z Z) :
  for_each (promotion_body cc cs cpr spr) ks A = Ok A' →
  ∀ k, (k ∈ ks →
         ∃ nc ns outc outs inc ins,
           cc !! k = Some nc ∧ cs !! k = Some ns
           ∧ promoted cc cpr k = Ok outc ∧ promoted cs spr k = Ok outs
           ∧ promoted_in cc cpr k = Ok inc ∧ promoted_in cs spr k = Ok ins
           ∧ A'.1 !! k = Some (nc - outc + inc)
           ∧ A'.2 !! k = Some (ns - outs + ins))
       ∧ (k ∉ ks → A'.1 !! k = A.1 !! k ∧ A'.2 !! k = A.2 !! k).
Proof.
  revert A. induction ks as [|k0 ks IH]; intros A HA k; simpl in HA.
  - injection HA as <-. split; [by intros ?%elem_of_nil | done].
  - apply bind_Ok in HA as (A0 & HA0 & HA).
    destruct (IH _ HA k) as [Hin Hout].
    unfold promotion_body in HA0.
    apply bind_Ok in HA0 as (outc & Houtc & HA0).
    apply bind_Ok in HA0 as (outs & Houts & HA0).
    apply bind_Ok in HA0 as (inc & Hinc & HA0).
    apply bind_Ok in HA0 as (ins & Hins & HA0).
    apply bind_Ok in HA0 as (ac & Hac & HA0).
    apply bind_Ok in HA0 as (as' & Has & HA0).
    injection HA0 as <-.
    unfold after_promotion in Hac, Has.
    apply bind_Ok in Hac as (nc & Hnc%getitem_Ok & [= <-]).
    apply bind_Ok in Has as (ns & Hns%getitem_Ok & [= <-]).
    split.
    + intros Hk. destruct (decide (k ∈ ks)) as [Hks|Hks]; [by apply Hin|].
      apply elem_of_cons in Hk as [->|Hk]; [|done].
      exists nc, ns, outc, outs, inc, ins.
      destruct (Hout Hks) as [-> ->]. simpl.
      by rewrite !lookup_insert_eq.
    + intros Hk. apply not_elem_of_cons in Hk as [Hne Hks].
      destruct (Hout Hks) as [-> ->]. simpl.
      by rewrite !lookup_insert_ne.
Qed.

Lemma promotion_pass_lookup cc cs cpr spr (Ac As : gmap Z Z) (level : Z) :
  promotion_pass cc cs cpr spr = Ok (Ac, As) →
  level ∈ LEVEL_RANGE →
  ∃ nc ns outc outs inc ins,
    cc !! level = Some nc ∧ cs !! level = Some ns
    ∧ promoted cc cpr level = Ok outc ∧ promoted cs spr level = Ok outs
    ∧ promoted_in cc cpr level = Ok inc ∧ promoted_in cs spr level = Ok ins
    ∧ Ac !! level = Some (nc - outc + inc)
    ∧ As !! level = Some (ns - outs + ins).
Proof.
  intros HA Hl.
  destruct (promotion_loop_lookup _ _ _ _ _ _ _ HA level) as [Hin _].
  by apply Hin.
Qed.

(** [round(n * r)], spelled out in float operations. *)
Lemma promoted_Ok (employees : gmap Z Z) (rates : gmap Z float) (level out : Z) :
  promoted employees rates level = Ok out ↔
  ∃ n r fn, employees !! level = Some n ∧ rates !! level = Some r
            ∧ float_of_int n = Ok fn ∧ round (fn * r)%float = Ok out.
Proof.
  unfold promoted, int_mul_float. split.
  - intros Hp.
    apply bind_Ok in Hp as (n & Hn%getitem_Ok & Hp).
    apply bind_Ok in Hp as (r & Hr%getitem_Ok & Hp).
    apply bind_Ok in Hp as (x & Hx & Hp).
    apply bind_Ok in Hx as (fn & Hfn & [= <-]).
    by exists n, r, fn.
  - intros (n & r & fn & Hn%getitem_Ok & Hr%getitem_Ok & Hfn & Hout).
    rewrite Hn. simpl. rewrite Hr. simpl. rewrite Hfn. simpl. done.
Qed.

(** [round(a - n * r)], spelled out in float operations. *)
Lemma after_attrition_Ok (A employees : gmap Z Z) (rates : gmap Z float)
    (level b : Z) :
  after_attrition A employees rates level = Ok b ↔
  ∃ a n r fa fn, A !! level = Some a ∧ employees !! level = Some n
                 ∧ rates !! level = Some r
                 ∧ float_of_int n = Ok fn ∧ float_of_int a = Ok fa
                 ∧ round (fa - fn * r)%float = Ok b.
Proof.
  unfold after_attrition, int_mul_float, int_sub_float. split.
  - intros Hp.
    apply bind_Ok in Hp as (a & Ha%getitem_Ok & Hp).
    apply bind_Ok in Hp as (n & Hn%getitem_Ok & Hp).
    apply bind_Ok in Hp as (r & Hr%getitem_Ok & Hp).
    apply bind_Ok in Hp as (x & Hx & Hp).
    apply bind_Ok in Hx as (fn & Hfn & [= <-]).
    apply bind_Ok in Hp as (y & Hy & Hp).
    apply bind_Ok in Hy as (fa & Hfa & [= <-]).
    by exists a, n, r, fa, fn.
  - intros (a & n & r & fa & fn & Ha%getitem_Ok & Hn%getitem_Ok
            & Hr%getitem_Ok & Hfn & Hfa & Hb).
    rewrite Ha. simpl. rewrite Hn. simpl. rewrite Hr. simpl.
    rewrite Hfn. simpl. rewrite Hfa. simpl. done.
Qed.

Lemma predict_one_year_inv `{FloatSum} cc cs ca sa cl sl snh cnh cpr spr car sar
    hr ratio target prev p :
  predict_one_year cc cs ca sa cl sl snh cnh cpr spr car sar hr ratio target prev
  = Ok p →
  ∃ s, structure_phase cc cs cpr spr car sar hr ratio target = Ok s
       ∧ age_phase s cc cs ca sa cl sl snh cnh car sar prev = Ok p
       ∧ Prediction.final_campus p = Locals.final_campus s
       ∧ Prediction.final_social p = Locals.final_social s
       ∧ Prediction.final_structure p = Locals.final_structure s
       ∧ Prediction.campus_hiring p = Locals.campus_hiring s
       ∧ Prediction.social_hiring p = Locals.C s
       ∧ Prediction.predicted_average_level p = Locals.predicted_average_level s.
Proof.
  unfold predict_one_year. intros Hp.
  apply bind_Ok in Hp as (s & Hs & Hp). exists s.
  split; [done|]. split; [done|].
  unfold age_phase in Hp.
  repeat (apply bind_Ok in Hp as (? & _ & Hp)).
  injection Hp as <-. simpl. by repeat split.
Qed.

(** ** The concrete scenario *)

(** C2: with 100 campus and 100 social employees at level 1 and none above,
    promotion rates 0, attrition rates 0.1, the whole social allocation on
    level 1, a campus ratio of 0.5, a target of 200 and every age 30.0,
    [predict_one_year] returns; after attrition both channels hold 90 at
    level 1, campus hiring is 100, the social need is -80 and its allocation
    is clamped to 0, and the year ends with 190 campus, 90 social and 280 in
    all at level 1. *)
Theorem scenario_level_one `{FloatSum} :
  ∃ s p,
    structure_phase Scenario.employees Scenario.employees
      Scenario.promotion_rates Scenario.promotion_rates
      Scenario.attrition_rates Scenario.attrition_rates
      Scenario.hiring_ratios Scenario.campus_ratio Scenario.target_total = Ok s
    ∧ predict_one_year Scenario.employees Scenario.employees
        (Some Scenario.ages) (Some Scenario.ages)
        Scenario.ages Scenario.ages Scenario.ages 30%float
        Scenario.promotion_rates Scenario.promotion_rates
        Scenario.attrition_rates Scenario.attrition_rates
        Scenario.hiring_ratios Scenario.campus_ratio Scenario.target_total
        None = Ok p
    ∧ Locals.B_campus s !! 1 = Some 90
    ∧ Locals.B_social s !! 1 = Some 90
    ∧ Locals.campus_hiring s = 100
    ∧ Locals.total_social_hiring_needed s = -80
    ∧ Locals.initial_C s !! 1 = Some (-80)
    ∧ Locals.C s !! 1 = Some 0
    ∧ Prediction.campus_hiring p = 100
    ∧ Prediction.social_hiring p !! 1 = Some 0
    ∧ Prediction.final_campus p !! 1 = Some 190
    ∧ Prediction.final_social p !! 1 = Some 90
    ∧ Prediction.final_structure p !! 1 = Some 280.
Proof.
  eexists. eexists.
  split; [vm_compute; reflexivity|].
  split; [vm_compute; reflexivity|].
  repeat split; vm_compute; reflexivity.
Qed.

(** Steps 2, 4 and 5 at one level. *)
Lemma clamp_allocation_lookup (initial_C C : gmap Z Z) (level : Z) :
  clamp_allocation initial_C = Ok C →
  level ∈ LEVEL_RANGE →
  ∃ v, initial_C !! level = Some v ∧ C !! level = Some (Z.max 0 v).
Proof.
  intros HC Hl. destruct (dict_comp_lookup _ _ _ HC level) as [Hin _].
  destruct (Hin Hl) as (c & Hc & Hlook).
  apply bind_Ok in Hc as (v & Hv%getitem_Ok & [= <-]).
  by exists v.
Qed.

Lemma structure_phase_level cc cs cpr spr car sar hr ratio target s level :
  structure_phase cc cs cpr spr car sar hr ratio target = Ok s →
  level ∈ LEVEL_RANGE →
  ∃ bc bs v,
    after_attrition (Locals.A_campus s) cc car level = Ok bc
    ∧ after_attrition (Locals.A_social s) cs sar level = Ok bs
    ∧ Locals.B_campus s !! level = Some bc
    ∧ Locals.B_social s !! level = Some bs
    ∧ Locals.B s !! level = Some (bc + bs)
    ∧ Locals.initial_C s !! level = Some v
    ∧ Locals.C s !! level = Some (Z.max 0 v)
    ∧ Locals.final_campus s !! level
      = Some (bc + (if decide (level = MIN_LEVEL) then Locals.campus_hiring s else 0))
    ∧ Locals.final_social s !! level = Some (bs + Z.max 0 v)
    ∧ Locals.final_structure s !! level
      = Some (bc + (if decide (level = MIN_LEVEL) then Locals.campus_hiring s else 0)
              + (bs + Z.max 0 v)).
Proof.
  intros Hs Hl.
  destruct (structure_phase_inv _ _ _ _ _ _ _ _ _ _ Hs)
    as (_ & HBc & HBs & HB & _ & _ & _ & _ & _ & HC & Hfc & Hfs & Hft & _).
  destruct (dict_comp_lookup _ _ _ HBc level) as [HBc' _].
  destruct (HBc' Hl) as (bc & Hbc & HBcl).
  destruct (dict_comp_lookup _ _ _ HBs level) as [HBs' _].
  destruct (HBs' Hl) as (bs & Hbs & HBsl).
  destruct (dict_comp_lookup _ _ _ HB level) as [HB' _].
  destruct (HB' Hl) as (b & Hb & HBl).
  destruct (clamp_allocation_lookup _ _ _ HC Hl) as (v & Hv & HCl).
  destruct (dict_comp_lookup _ _ _ Hfc level) as [Hfc' _].
  destruct (Hfc' Hl) as (fc & Hfc1 & Hfcl).
  destruct (dict_comp_lookup _ _ _ Hfs level) as [Hfs' _].
  destruct (Hfs' Hl) as (fs & Hfs1 & Hfsl).
  destruct (dict_comp_lookup _ _ _ Hft level) as [Hft' _].
  destruct (Hft' Hl) as (ft & Hft1 & Hftl).
  apply bind_Ok in Hb as (? & Hb1%getitem_Ok & Hb).
  apply bind_Ok in Hb as (? & Hb2%getitem_Ok & [= <-]).
  apply bind_Ok in Hfc1 as (? & Hfc2%getitem_Ok & [= <-]).
  apply bind_Ok in Hfs1 as (? & Hfs2%getitem_Ok & Hfs1).
  apply bind_Ok in Hfs1 as (? & Hfs3%getitem_Ok & [= <-]).
  apply bind_Ok in Hft1 as (? & Hft2%getitem_Ok & Hft1).
  apply bind_Ok in Hft1 as (? & Hft3%getitem_Ok & [= <-]).
  simplify_eq.
  exists bc, bs, v. by repeat split.
Qed.

Lemma attrition_entry_level cc cs cpr spr car sar hr ratio target s level :
  structure_phase cc cs cpr spr car sar hr ratio target = Ok s →
  level ∈ LEVEL_RANGE →
  ∃ bc bs,
    Locals.B_campus s !! level = Some bc
    ∧ Locals.B_social s !! level = Some bs
    ∧ attrition_entry cc cpr car (Locals.A_campus s) level bc
    ∧ attrition_entry cs spr sar (Locals.A_social s) level bs.
Proof.
  intros Hs Hl.
  destruct (structure_phase_level _ _ _ _ _ _ _ _ _ _ _ Hs Hl)
    as (bc & bs & v & Hbc & Hbs & HBc & HBs & _).
  destruct (structure_phase_inv _ _ _ _ _ _ _ _ _ _ Hs) as (HA & _).
  destruct (promotion_pass_lookup _ _ _ _ _ _ _ HA Hl)
    as (nc & ns & outc & outs & inc & ins & Hnc & Hns & Houtc & Houts
        & Hinc & Hins & HAc & HAs).
  apply after_attrition_Ok in Hbc
    as (a & n & r & fa & fn & Ha & Hn & Hr & Hfn & Hfa & Hb).
  apply after_attrition_Ok in Hbs
    as (a' & n' & r' & fa' & fn' & Ha' & Hn' & Hr' & Hfn' & Hfa' & Hb').
  simplify_eq.
  exists bc, bs. split; [done|]. split; [done|]. split.
  - unfold attrition_entry. do 6 eexists. repeat split; eassumption.
  - unfold attrition_entry. do 6 eexists. repeat split; eassumption.
Qed.

(** ** The attrition pass *)

(** C5: in every year that [predict_one_year] returns, at each level and
    in each channel the head-count after attrition is
    [B[L] = round(A[L] - headcount[L] * attrition_rate[L])]: the attrition
    quantity scales the original head-count, and is taken off the
    promotion-adjusted figure [A[L]]; the final head-counts are these
    figures plus the hires. *)
Theorem attrition_scales_original_headcount `{FloatSum}
    cc cs ca sa cl sl snh cnh cpr spr car sar hr ratio target prev p :
  predict_one_year cc cs ca sa cl sl snh cnh cpr spr car sar hr ratio target prev
  = Ok p →
  ∃ s, structure_phase cc cs cpr spr car sar hr ratio target = Ok s
    ∧ ∀ level, level ∈ LEVEL_RANGE →
      ∃ bc bs c,
        Locals.B_campus s !! level = Some bc
        ∧ Locals.B_social s !! level = Some bs
        ∧ attrition_entry cc cpr car (Locals.A_campus s) level bc
        ∧ attrition_entry cs spr sar (Locals.A_social s) level bs
        ∧ Prediction.social_hiring p !! level = Some c
        ∧ Prediction.final_campus p !! level
          = Some (bc + (if decide (level = MIN_LEVEL)
                        then Prediction.campus_hiring p else 0))
        ∧ Prediction.final_social p !! level = Some (bs + c).
Proof.
  intros Hp.
  destruct (predict_one_year_inv _ _ _ _ _ _ _ _ _ _ _ _ _ _ _ _ _ Hp)
    as (s & Hs & _ & -> & -> & _ & -> & -> & _).
  exists s. split; [done|]. intros level Hl.
  destruct (attrition_entry_level _ _ _ _ _ _ _ _ _ _ _ Hs Hl)
    as (bc & bs & HBc & HBs & Hec & Hes).
  destruct (structure_phase_level _ _ _ _ _ _ _ _ _ _ _ Hs Hl)
    as (bc' & bs' & v & _ & _ & HBc' & HBs' & _ & _ & HC & Hfc & Hfs & _).
  simplify_eq.
  exists bc, bs, (Z.max 0 v). by repeat split.
Qed.

Lemma attrition_scales_original_headcount_witness :
  ∃ p, scenario_call = Ok p
    ∧ ∃ s, structure_phase Scenario.employees Scenario.employees
             Scenario.promotion_rates Scenario.promotion_rates
             Scenario.attrition_rates Scenario.attrition_rates
             Scenario.hiring_ratios Scenario.campus_ratio
             Scenario.target_total = Ok s
        ∧ ∀ level, level ∈ LEVEL_RANGE →
          ∃ bc bs c,
            Locals.B_campus s !! level = Some bc
            ∧ Locals.B_social s !! level = Some bs
            ∧ attrition_entry Scenario.employees Scenario.promotion_rates
                Scenario.attrition_rates (Locals.A_campus s) level bc
            ∧ attrition_entry Scenario.employees Scenario.promotion_rates
                Scenario.attrition_rates (Locals.A_social s) level bs
            ∧ Prediction.social_hiring p !! level = Some c
            ∧ Prediction.final_campus p !! level
              = Some (bc + (if decide (level = MIN_LEVEL)
                            then Prediction.campus_hiring p else 0))
            ∧ Prediction.final_social p !! level = Some (bs + c).
Proof.
  eexists. split.
  - vm_compute. reflexivity.
  - eapply (@attrition_scales_original_headcount float_sum_left
              Scenario.employees Scenario.employees
              (Some Scenario.ages) (Some Scenario.ages)
              Scenario.ages Scenario.ages Scenario.ages 30%float
              Scenario.promotion_rates Scenario.promotion_rates
              Scenario.attrition_rates Scenario.attrition_rates
              Scenario.hiring_ratios Scenario.campus_ratio
              Scenario.target_total None).
    vm_compute. reflexivity.
Defined.

(** ** The promotion pass *)

Lemma promotion_entry_level cc cs cpr spr (Ac As : gmap Z Z) (level : Z) :
  promotion_pass cc cs cpr spr = Ok (Ac, As) →
  level ∈ LEVEL_RANGE →
  promotion_entry cc cpr Ac level ∧ promotion_entry cs spr As level.
Proof.
  intros HA Hl.
  destruct (promotion_pass_lookup _ _ _ _ _ _ _ HA Hl)
    as (nc & ns & outc & outs & inc & ins & Hnc & Hns & Houtc & Houts
        & Hinc & Hins & HAc & HAs).
  unfold promoted_in in Hinc, Hins.
  split.
  - exists nc, outc, inc. repeat split; try done.
    + intros ->. by injection Hinc as <-.
    + intros Hlt. by rewrite decide_True in Hinc.
  - exists ns, outs, ins. repeat split; try done.
    + intros ->. by injection Hins as <-.
    + intros Hlt. by rewrite decide_True in Hins.
Qed.

(** C4, as the code has it: the promotion pass treats the seven levels
    alike.  At every level [A[L] = headcount[L] - round(headcount[L] *
    rate[L]) + promoted_in], where [promoted_in] is what level [L - 1] lost
    (0 at level 1).  Level 7 has no level above it, and still loses
    [round(headcount[7] * rate[7])]: its head-count after promotion is the
    starting one plus the arrivals from level 6 exactly when that rounded
    figure is 0. *)
Theorem promotion_pass_uniform cc cs cpr spr car sar hr ratio target s :
  structure_phase cc cs cpr spr car sar hr ratio target = Ok s →
  (∀ level, level ∈ LEVEL_RANGE →
     promotion_entry cc cpr (Locals.A_campus s) level
     ∧ promotion_entry cs spr (Locals.A_social s) level)
  ∧ ∃ nc ns outc outs inc ins : Z,
      cc !! MAX_LEVEL = Some nc ∧ cs !! MAX_LEVEL = Some ns
      ∧ promoted cc cpr MAX_LEVEL = Ok outc
      ∧ promoted cs spr MAX_LEVEL = Ok outs
      ∧ promoted cc cpr (MAX_LEVEL - 1) = Ok inc
      ∧ promoted cs spr (MAX_LEVEL - 1) = Ok ins
      ∧ Locals.A_campus s !! MAX_LEVEL = Some (nc - outc + inc)
      ∧ Locals.A_social s !! MAX_LEVEL = Some (ns - outs + ins)
      ∧ (Locals.A_campus s !! MAX_LEVEL = Some (nc + inc) ↔ outc = 0)
      ∧ (Locals.A_social s !! MAX_LEVEL = Some (ns + ins) ↔ outs = 0).
Proof.
  intros Hs.
  destruct (structure_phase_inv _ _ _ _ _ _ _ _ _ _ Hs) as (HA & _).
  split.
  - intros level Hl. by apply (promotion_entry_level _ _ _ _ _ _ _ HA).
  - assert (Hl : MAX_LEVEL ∈ LEVEL_RANGE)
      by (apply elem_of_LEVEL_RANGE; unfold MIN_LEVEL, MAX_LEVEL; lia).
    destruct (promotion_entry_level _ _ _ _ _ _ _ HA Hl)
      as [(nc & outc & inc & Hnc & Houtc & _ & Hinc & HAc)
          (ns & outs & ins & Hns & Houts & _ & Hins & HAs)].
    exists nc, ns, outc, outs, inc, ins.
    rewrite HAc, HAs.
    repeat split; try done.
    + by apply Hinc.
    + by apply Hins.
    + intros [= Heq]. lia.
    + intros ->. f_equal. lia.
    + intros [= Heq]. lia.
    + intros ->. f_equal. lia.
Qed.

Lemma promotion_pass_uniform_witness :
  ∃ s, TopLevel.call = Ok s
    ∧ (∀ level, level ∈ LEVEL_RANGE →
         promotion_entry TopLevel.campus_employees
           TopLevel.campus_promotion_rates (Locals.A_campus s) level
         ∧ promotion_entry TopLevel.social_employees TopLevel.zero_rates
             (Locals.A_social s) level)
    ∧ ∃ nc ns outc outs inc ins : Z,
        TopLevel.campus_employees !! MAX_LEVEL = Some nc
        ∧ TopLevel.social_employees !! MAX_LEVEL = Some ns
        ∧ promoted TopLevel.campus_employees TopLevel.campus_promotion_rates
            MAX_LEVEL = Ok outc
        ∧ promoted TopLevel.social_employees TopLevel.zero_rates MAX_LEVEL
          = Ok outs
        ∧ promoted TopLevel.campus_employees TopLevel.campus_promotion_rates
            (MAX_LEVEL - 1) = Ok inc
        ∧ promoted TopLevel.social_employees TopLevel.zero_rates
            (MAX_LEVEL - 1) = Ok ins
        ∧ Locals.A_campus s !! MAX_LEVEL = Some (nc - outc + inc)
        ∧ Locals.A_social s !! MAX_LEVEL = Some (ns - outs + ins)
        ∧ (Locals.A_campus s !! MAX_LEVEL = Some (nc + inc) ↔ outc = 0)
        ∧ (Locals.A_social s !! MAX_LEVEL = Some (ns + ins) ↔ outs = 0).
Proof.
  eexists. split.
  - vm_compute. reflexivity.
  - apply (promotion_pass_uniform TopLevel.campus_employees
             TopLevel.social_employees TopLevel.campus_promotion_rates
             TopLevel.zero_rates TopLevel.zero_rates TopLevel.zero_rates
             TopLevel.hiring_ratios 0.5%float 10).
    vm_compute. reflexivity.
Defined.

(** C4 fails as stated: ten campus employees at level 7 with a promotion
    rate of 0.5 there and nobody at level 6 leave 5 at level 7 after the
    promotion pass, not 10. *)
Lemma level_seven_loses_promoted :
  ∃ s, TopLevel.call = Ok s
    ∧ TopLevel.campus_employees !! 7 = Some 10
    ∧ promoted_in TopLevel.campus_employees TopLevel.campus_promotion_rates 7
      = Ok 0
    ∧ Locals.A_campus s !! 7 = Some 5
    ∧ Locals.A_campus s !! 7 ≠ Some (10 + 0).
Proof.
  eexists. split; [vm_compute; reflexivity|].
  repeat split; try (vm_compute; reflexivity).
  vm_compute. intros [=].
Qed.

(** ** Signs of the final head-counts *)

(** C1, as the code has it: only the social allocation is coerced.  At
    every level the allocated social hires are [max(0, .)], hence never
    negative; [final_social[L] = B_social[L] + C[L]] is at least
    [B_social[L]], and [final_campus[L]] is [B_campus[L]] plus the campus
    hires at level 1.  So a final head-count is non-negative whenever the
    head-count after attrition is (and, at level 1 of the campus channel,
    campus hiring is). *)
Theorem final_headcounts_above_attrition `{FloatSum}
    cc cs ca sa cl sl snh cnh cpr spr car sar hr ratio target prev p :
  predict_one_year cc cs ca sa cl sl snh cnh cpr spr car sar hr ratio target prev
  = Ok p →
  ∃ s, structure_phase cc cs cpr spr car sar hr ratio target = Ok s
    ∧ ∀ level, level ∈ LEVEL_RANGE →
      ∃ bc bs c fc fs : Z,
        Locals.B_campus s !! level = Some bc
        ∧ Locals.B_social s !! level = Some bs
        ∧ Prediction.social_hiring p !! level = Some c
        ∧ Prediction.final_campus p !! level = Some fc
        ∧ Prediction.final_social p !! level = Some fs
        ∧ 0 ≤ c
        ∧ fs = bs + c
        ∧ fc = bc + (if decide (level = MIN_LEVEL)
                     then Prediction.campus_hiring p else 0)
        ∧ bs ≤ fs
        ∧ (0 ≤ bs → 0 ≤ fs)
        ∧ (0 ≤ bc → 0 ≤ Prediction.campus_hiring p → 0 ≤ fc).
Proof.
  intros Hp.
  destruct (predict_one_year_inv _ _ _ _ _ _ _ _ _ _ _ _ _ _ _ _ _ Hp)
    as (s & Hs & _ & -> & -> & _ & -> & -> & _).
  exists s. split; [done|]. intros level Hl.
  destruct (structure_phase_level _ _ _ _ _ _ _ _ _ _ _ Hs Hl)
    as (bc & bs & v & _ & _ & HBc & HBs & _ & _ & HC & Hfc & Hfs & _).
  eexists bc, bs, (Z.max 0 v), _, _.
  split; [done|]. split; [done|]. split; [done|].
  split; [exact Hfc|]. split; [exact Hfs|].
  repeat split; try lia.
  intros Hbc Hh. case_decide; lia.
Qed.

Lemma final_headcounts_above_attrition_witness :
  ∃ p, scenario_call = Ok p
    ∧ ∃ s, structure_phase Scenario.employees Scenario.employees
             Scenario.promotion_rates Scenario.promotion_rates
             Scenario.attrition_rates Scenario.attrition_rates
             Scenario.hiring_ratios Scenario.campus_ratio
             Scenario.target_total = Ok s
        ∧ ∀ level, level ∈ LEVEL_RANGE →
          ∃ bc bs c fc fs : Z,
            Locals.B_campus s !! level = Some bc
            ∧ Locals.B_social s !! level = Some bs
            ∧ Prediction.social_hiring p !! level = Some c
            ∧ Prediction.final_campus p !! level = Some fc
            ∧ Prediction.final_social p !! level = Some fs
            ∧ 0 ≤ c
            ∧ fs = bs + c
            ∧ fc = bc + (if decide (level = MIN_LEVEL)
                         then Prediction.campus_hiring p else 0)
            ∧ bs ≤ fs
            ∧ (0 ≤ bs → 0 ≤ fs)
            ∧ (0 ≤ bc → 0 ≤ Prediction.campus_hiring p → 0 ≤ fc).
Proof.
  eexists. split.
  - vm_compute. reflexivity.
  - eapply (@final_headcounts_above_attrition float_sum_left
              Scenario.employees Scenario.employees
              (Some Scenario.ages) (Some Scenario.ages)
              Scenario.ages Scenario.ages Scenario.ages 30%float
              Scenario.promotion_rates Scenario.promotion_rates
              Scenario.attrition_rates Scenario.attrition_rates
              Scenario.hiring_ratios Scenario.campus_ratio
              Scenario.target_total None).
    vm_compute. reflexivity.
Defined.

(** C1 fails as stated: with ten employees per channel at level 1, a
    promotion rate of 0.5 and an attrition rate of 0.75 there and a target
    of 0, both channels end the year with -2 employees at level 1. *)
Lemma negative_final_headcount :
  ∃ p, Shrink.call = Ok p
    ∧ Prediction.final_campus p !! 1 = Some (-2)
    ∧ Prediction.final_social p !! 1 = Some (-2)
    ∧ -2 < 0.
Proof.
  eexists. split; [vm_compute; reflexivity|].
  repeat split; vm_compute; reflexivity.
Qed.

(** ** The allocation of the social hires *)

Lemma sum_values_insert_Some (d : gmap Z Z) (k v v' : Z) :
  d !! k = Some v → sum_values (<[k := v']> d) = sum_values d - v + v'.
Proof.
  intros Hk.
  rewrite <- (insert_delete_id d k v) at 2 by done.
  rewrite <- insert_delete_eq.
  rewrite !sum_values_insert by apply lookup_delete_eq. lia.
Qed.

(** [max(..., key=...)] over an ascending list: the largest key, and the
    smallest item among those that reach it. *)
Lemma max_from_spec (d : gmap Z Z) (ks : list Z) (m0 v0 m : Z) :
  StronglySorted Z.lt (m0 :: ks) →
  d !! m0 = Some v0 →
  max_from (getitem d) ks m0 v0 = Ok m →
  ∃ vm, d !! m = Some vm ∧ m ∈ m0 :: ks ∧ v0 ≤ vm ∧ (m ≠ m0 → v0 < vm)
    ∧ ∀ k, k ∈ m0 :: ks → ∃ v, d !! k = Some v ∧ v ≤ vm ∧ (k < m → v < vm).
Proof.
  revert m0 v0. induction ks as [|k1 ks IH]; intros m0 v0 Hsort Hm0 Hmax.
  - injection Hmax as <-. exists v0.
    split; [done|]. split; [by left|]. split; [lia|]. split; [done|].
    intros k ->%list_elem_of_singleton. exists v0. split; [done|]. lia.
  - simpl in Hmax. apply bind_Ok in Hmax as (v1 & Hv1%getitem_Ok & Hmax).
    apply StronglySorted_inv in Hsort as [Hsort1 Hall].
    apply Forall_cons in Hall as [Hlt Hall].
    destruct (decide (v0 < v1)) as [Hv|Hv].
    + destruct (IH k1 v1 Hsort1 Hv1 Hmax) as (vm & Hvm & Hin & Hle & Hne & Hk).
      exists vm. split; [done|]. split; [by right|]. split; [lia|].
      split; [lia|].
      intros k [->|Hk']%elem_of_cons.
      * exists v0. split; [done|]. lia.
      * by apply Hk.
    + assert (Hsort0 : StronglySorted Z.lt (m0 :: ks)).
      { apply SSorted_cons; [by apply StronglySorted_inv in Hsort1 as [? _]|done]. }
      destruct (IH m0 v0 Hsort0 Hm0 Hmax) as (vm & Hvm & Hin & Hle & Hne & Hk).
      exists vm. split; [done|]. split.
      { apply elem_of_cons in Hin as [->|Hin]; [by left|by do 2 right]. }
      split; [done|]. split; [done|].
      intros k [->|[->|Hk']%elem_of_cons]%elem_of_cons.
      * apply Hk. by left.
      * exists v1. split; [done|]. split; [lia|].
        intros Hkm. assert (m ≠ m0) by lia. specialize (Hne ltac:(done)). lia.
      * apply Hk. by right.
Qed.

Lemma StronglySorted_LEVEL_RANGE : StronglySorted Z.lt LEVEL_RANGE.
Proof.
  rewrite LEVEL_RANGE_levels.
  repeat (apply SSorted_cons; [|repeat constructor; lia]).
  apply SSorted_nil.
Qed.

Lemma max_key_LEVEL_RANGE (d : gmap Z Z) (m : Z) :
  max_key (getitem d) LEVEL_RANGE = Ok m →
  ∃ vm, d !! m = Some vm ∧ m ∈ LEVEL_RANGE
    ∧ ∀ k, k ∈ LEVEL_RANGE → ∃ v, d !! k = Some v ∧ v ≤ vm ∧ (k < m → v < vm).
Proof.
  pose proof StronglySorted_LEVEL_RANGE as Hsort.
  rewrite LEVEL_RANGE_levels in *. intros Hmax. simpl in Hmax.
  apply bind_Ok in Hmax as (v1 & Hv1%getitem_Ok & Hmax).
  destruct (max_from_spec _ _ _ _ _ Hsort Hv1 Hmax)
    as (vm & Hvm & Hin & _ & _ & Hk).
  by exists vm.
Qed.

Lemma rounded_allocation_lookup (total : Z) (hr : gmap Z float)
    (rounded : gmap Z Z) (level : Z) :
  rounded_allocation total hr = Ok rounded →
  (level ∈ LEVEL_RANGE →
   ∃ (r ft : float) (v : Z),
     hr !! level = Some r ∧ float_of_int total = Ok ft
     ∧ round (ft * r)%float = Ok v ∧ rounded !! level = Some v)
  ∧ (level ∉ LEVEL_RANGE → rounded !! level = None).
Proof.
  intros Hr. destruct (dict_comp_lookup _ _ _ Hr level) as [Hin Hout].
  split; [|done]. intros Hl.
  destruct (Hin Hl) as (v & Hv & Hlook).
  apply bind_Ok in Hv as (r & Hhr%getitem_Ok & Hv).
  apply bind_Ok in Hv as (x & Hx & Hv).
  apply bind_Ok in Hx as (ft & Hft & [= <-]).
  by exists r, ft, v.
Qed.

Lemma adjust_allocation_spec (total : Z) (rounded adjusted : gmap Z Z) :
  adjust_allocation total rounded = Ok adjusted →
  (sum_values rounded = total → adjusted = rounded)
  ∧ (sum_values rounded ≠ total →
     ∃ m vm, m ∈ LEVEL_RANGE ∧ rounded !! m = Some vm
       ∧ (∀ level, level ∈ LEVEL_RANGE →
            ∃ v, rounded !! level = Some v ∧ v ≤ vm ∧ (level < m → v < vm))
       ∧ adjusted = <[m := vm + (total - sum_values rounded)]> rounded).
Proof.
  unfold adjust_allocation. intros Hadj. case_decide as Hsum.
  - apply bind_Ok in Hadj as (m & Hm & Hadj).
    apply bind_Ok in Hadj as (vm & Hvm%getitem_Ok & [= <-]).
    split; [done|]. intros _.
    destruct (max_key_LEVEL_RANGE _ _ Hm) as (vm' & Hvm' & Hin & Hk).
    simplify_eq. by exists m, vm.
  - injection Hadj as <-. by split.
Qed.

Lemma adjust_allocation_sum (total : Z) (rounded adjusted : gmap Z Z) :
  adjust_allocation total rounded = Ok adjusted →
  sum_values adjusted = total.
Proof.
  intros Hadj. destruct (adjust_allocation_spec _ _ _ Hadj) as [Heq Hne].
  destruct (decide (sum_values rounded = total)) as [Hsum|Hsum].
  - by rewrite (Heq Hsum).
  - destruct (Hne Hsum) as (m & vm & _ & Hvm & _ & ->).
    rewrite (sum_values_insert_Some _ _ _ _ Hvm). lia.
Qed.

Lemma adjust_allocation_outside (total : Z) (rounded adjusted : gmap Z Z)
    (level : Z) :
  adjust_allocation total rounded = Ok adjusted →
  level ∉ LEVEL_RANGE → adjusted !! level = rounded !! level.
Proof.
  intros Hadj Hl. destruct (adjust_allocation_spec _ _ _ Hadj) as [Heq Hne].
  destruct (decide (sum_values rounded = total)) as [Hsum|Hsum].
  - by rewrite (Heq Hsum).
  - destruct (Hne Hsum) as (m & vm & Hm & _ & _ & ->).
    apply lookup_insert_ne. by intros ->.
Qed.

(** The growing organisation: the rounded shares of 34 add up to 32, the
    residual 2 goes to level 1, the first of the three levels with the
    largest share, and nothing is clamped. *)
Example growth_allocation :
  ∃ s, Growth.structure = Ok s
    ∧ Locals.total_social_hiring_needed s = 34
    ∧ Locals.rounded_C s = Growth.levels [8; 8; 8; 4; 4; 0; 0]
    ∧ Locals.initial_C s = Growth.levels [10; 8; 8; 4; 4; 0; 0]
    ∧ Locals.C s = Growth.levels [10; 8; 8; 4; 4; 0; 0]
    ∧ sum_values (Locals.C s) = 34.
Proof.
  eexists. split; [vm_compute; reflexivity|].
  repeat split; vm_compute; reflexivity.
Qed.

(** C3: the social hiring allocation of [predict_one_year].  Each level
    first receives [round(social_hiring_total * hiring_ratio[L])]; when
    these shares do not add up to [social_hiring_total], the whole residual
    is added at one level, the one with the largest share and, among equals,
    the lowest; every negative share is then clamped to 0.  Hence, when
    [social_hiring_total >= 0] and no share needed clamping, the allocated
    social hires add up to [social_hiring_total]. *)
Theorem social_allocation_reconciles `{FloatSum}
    cc cs ca sa cl sl snh cnh cpr spr car sar hr ratio target prev p :
  predict_one_year cc cs ca sa cl sl snh cnh cpr spr car sar hr ratio target prev
  = Ok p →
  ∃ s, structure_phase cc cs cpr spr car sar hr ratio target = Ok s
    ∧ Prediction.social_hiring p = Locals.C s
    ∧ (∀ level, level ∈ LEVEL_RANGE →
         ∃ (r ft : float) (v : Z),
           hr !! level = Some r
           ∧ float_of_int (Locals.total_social_hiring_needed s) = Ok ft
           ∧ round (ft * r)%float = Ok v
           ∧ Locals.rounded_C s !! level = Some v)
    ∧ (sum_values (Locals.rounded_C s) = Locals.total_social_hiring_needed s →
       Locals.initial_C s = Locals.rounded_C s)
    ∧ (sum_values (Locals.rounded_C s) ≠ Locals.total_social_hiring_needed s →
       ∃ m vm,
         m ∈ LEVEL_RANGE ∧ Locals.rounded_C s !! m = Some vm
         ∧ (∀ level, level ∈ LEVEL_RANGE →
              ∃ v, Locals.rounded_C s !! level = Some v
                   ∧ v ≤ vm ∧ (level < m → v < vm))
         ∧ Locals.initial_C s
           = <[m := vm + (Locals.total_social_hiring_needed s
                          - sum_values (Locals.rounded_C s))]>
               (Locals.rounded_C s))
    ∧ (∀ level, level ∈ LEVEL_RANGE →
         ∃ v bs, Locals.initial_C s !! level = Some v
                 ∧ Prediction.social_hiring p !! level = Some (Z.max 0 v)
                 ∧ Locals.B_social s !! level = Some bs
                 ∧ Prediction.final_social p !! level = Some (bs + Z.max 0 v))
    ∧ (0 ≤ Locals.total_social_hiring_needed s →
       (∀ level v, level ∈ LEVEL_RANGE →
                   Locals.initial_C s !! level = Some v → 0 ≤ v) →
       sum_values (Prediction.social_hiring p)
       = Locals.total_social_hiring_needed s).
Proof.
  intros Hp.
  destruct (predict_one_year_inv _ _ _ _ _ _ _ _ _ _ _ _ _ _ _ _ _ Hp)
    as (s & Hs & _ & _ & -> & _ & _ & -> & _).
  exists s. split; [done|]. split; [done|].
  destruct (structure_phase_inv _ _ _ _ _ _ _ _ _ _ Hs)
    as (_ & _ & _ & _ & _ & _ & _ & Hrounded & Hadj & Hclamp & _).
  destruct (adjust_allocation_spec _ _ _ Hadj) as [Heq Hne].
  split.
  { intros level Hl.
    by destruct (rounded_allocation_lookup _ _ _ level Hrounded) as [Hin _];
      apply Hin. }
  split; [done|]. split; [done|]. split.
  { intros level Hl.
    destruct (structure_phase_level _ _ _ _ _ _ _ _ _ _ _ Hs Hl)
      as (bc & bs & v & _ & _ & _ & HBs & _ & Hv & HC & _ & Hfs & _).
    by exists v, bs. }
  intros _ Hnoclamp.
  replace (Locals.C s) with (Locals.initial_C s);
    [by apply (adjust_allocation_sum _ _ _ Hadj)|].
  apply map_eq. intros level.
  destruct (decide (level ∈ LEVEL_RANGE)) as [Hl|Hl].
  - destruct (clamp_allocation_lookup _ _ _ Hclamp Hl) as (v & Hv & HC).
    rewrite Hv, HC. f_equal. specialize (Hnoclamp level v Hl Hv). lia.
  - rewrite (adjust_allocation_outside _ _ _ _ Hadj Hl).
    destruct (rounded_allocation_lookup _ _ _ level Hrounded) as [_ Hout].
    rewrite (Hout Hl).
    destruct (dict_comp_lookup _ _ _ Hclamp level) as [_ HCout].
    by rewrite (HCout Hl).
Qed.

Lemma social_allocation_reconciles_witness :
  ∃ p, growth_call = Ok p
    ∧ ∃ s, Growth.structure = Ok s
        ∧ Prediction.social_hiring p = Locals.C s
        ∧ (∀ level, level ∈ LEVEL_RANGE →
             ∃ (r ft : float) (v : Z),
               Growth.hiring_ratios !! level = Some r
               ∧ float_of_int (Locals.total_social_hiring_needed s) = Ok ft
               ∧ round (ft * r)%float = Ok v
               ∧ Locals.rounded_C s !! level = Some v)
        ∧ (sum_values (Locals.rounded_C s)
           = Locals.total_social_hiring_needed s →
           Locals.initial_C s = Locals.rounded_C s)
        ∧ (sum_values (Locals.rounded_C s)
           ≠ Locals.total_social_hiring_needed s →
           ∃ m vm,
             m ∈ LEVEL_RANGE ∧ Locals.rounded_C s !! m = Some vm
             ∧ (∀ level, level ∈ LEVEL_RANGE →
                  ∃ v, Locals.rounded_C s !! level = Some v
                       ∧ v ≤ vm ∧ (level < m → v < vm))
             ∧ Locals.initial_C s
               = <[m := vm + (Locals.total_social_hiring_needed s
                              - sum_values (Locals.rounded_C s))]>
                   (Locals.rounded_C s))
        ∧ (∀ level, level ∈ LEVEL_RANGE →
             ∃ v bs, Locals.initial_C s !! level = Some v
                     ∧ Prediction.social_hiring p !! level = Some (Z.max 0 v)
                     ∧ Locals.B_social s !! level = Some bs
                     ∧ Prediction.final_social p !! level
                       = Some (bs + Z.max 0 v))
        ∧ (0 ≤ Locals.total_social_hiring_needed s →
           (∀ level v, level ∈ LEVEL_RANGE →
                       Locals.initial_C s !! level = Some v → 0 ≤ v) →
           sum_values (Prediction.social_hiring p)
           = Locals.total_social_hiring_needed s).
Proof.
  eexists. split.
  - vm_compute. reflexivity.
  - eapply (@social_allocation_reconciles float_sum_left
              Growth.campus_employees Growth.social_employees
              (Some Growth.campus_ages) (Some Growth.social_ages)
              Growth.campus_ages Growth.social_ages Growth.social_ages 23%float
              Growth.promotion_rates Growth.promotion_rates
              Growth.attrition_rates Growth.attrition_rates
              Growth.hiring_ratios Growth.campus_ratio Growth.target_total None).
    vm_compute. reflexivity.
Defined.

(** ** The age-mass *)

Lemma gen_expr_Forall2 {A} (f : Z → result A) (ks : list Z) (xs : list A) :
  gen_expr f ks = Ok xs ↔ Forall2 (λ k x, f k = Ok x) ks xs.
Proof.
  revert xs. induction ks as [|k ks IH]; intros xs; simpl.
  - split.
    + intros [= <-]. constructor.
    + by intros ->%Forall2_nil_inv_l.
  - split.
    + intros Hg. apply bind_Ok in Hg as (x & Hx & Hg).
      apply bind_Ok in Hg as (xs' & Hxs & [= <-]).
      constructor; [done|]. by apply IH.
    + intros (x & xs' & Hx & Hxs & ->)%Forall2_cons_inv_l.
      rewrite Hx. simpl. apply IH in Hxs. rewrite Hxs. done.
Qed.

Section AgeMassFacts.
Context `{FloatSum}.


Lemma leaving_total_age_spec (headcount : gmap Z Z)
    (rate leaving_age : gmap Z float) (x : float) :
  leaving_total_age headcount rate leaving_age = Ok x →
  level_sum (attrition_age_term headcount rate leaving_age) x.
Proof.
  unfold leaving_total_age. intros (xs & Hxs & ->)%fmap_Ok.
  exists xs. split; [|done].
  apply gen_expr_Forall2 in Hxs. eapply Forall2_impl; [exact Hxs|].
  intros level y Hy. simpl in Hy.
  apply bind_Ok in Hy as (n & Hn%getitem_Ok & Hy).
  apply bind_Ok in Hy as (r & Hr%getitem_Ok & Hy).
  apply bind_Ok in Hy as (z & Hz & Hy).
  apply bind_Ok in Hz as (fn & Hfn & [= <-]).
  apply bind_Ok in Hy as (a & Ha%getitem_Ok & [= <-]).
  by exists n, r, a, fn.
Qed.

Lemma start_total_age_spec (cc cs : gmap Z Z) (ca sa : option (gmap Z float))
    (prev : option float) (start : float) :
  start_total_age cc cs ca sa prev = Ok start →
  start_age_mass cc cs ca sa prev start.
Proof.
  unfold start_total_age, start_age_mass.
  destruct prev as [t|]; [by intros [= <-]|].
  destruct ca as [ca|]; [|done]. destruct sa as [sa|]; [|done].
  intros (xs & Hxs & ->)%fmap_Ok.
  exists ca, sa. split; [done|]. split; [done|].
  exists xs. split; [|done].
  apply gen_expr_Forall2 in Hxs. eapply Forall2_impl; [exact Hxs|].
  intros level y Hy. simpl in Hy.
  apply bind_Ok in Hy as (nc & Hnc%getitem_Ok & Hy).
  apply bind_Ok in Hy as (ac & Hac%getitem_Ok & Hy).
  apply bind_Ok in Hy as (x & Hx & Hy).
  apply bind_Ok in Hx as (fc & Hfc & [= <-]).
  apply bind_Ok in Hy as (ns & Hns%getitem_Ok & Hy).
  apply bind_Ok in Hy as (a_s & Has%getitem_Ok & Hy).
  apply bind_Ok in Hy as (y' & Hy' & [= <-]).
  apply bind_Ok in Hy' as (fs & Hfs & [= <-]).
  by exists nc, ns, ac, a_s, fc, fs.
Qed.
End AgeMassFacts.





(** The growing organisation after one year: 303 employees whose ages add
    up to 8409.71875. *)
Example growth_age_mass :
  ∃ p, growth_call = Ok p
    ∧ sum_values (Prediction.final_structure p) = 303
    ∧ Prediction.predicted_total_age p = 8409.71875%float.
Proof.
  eexists. split; [vm_compute; reflexivity|].
  split; vm_compute; reflexivity.
Qed.

(** ** The first-year validation *)

Lemma bind_Raise {A B} (m : result A) (f : A → result B) (e : exn) :
  m ≫= f = Raise e ↔ m = Raise e ∨ ∃ a, m = Ok a ∧ f a = Raise e.
Proof.
  destruct m as [a|e']; simpl; split.
  - intros Hf. right. by exists a.
  - by intros [[=]|(a' & [= <-] & Hf)].
  - intros [= <-]. by left.
  - by intros [[= <-]|(a' & [=] & _)].
Qed.

(** [m] does not raise the validation error. *)
Definition no_validation_error {A} (m : result A) : Prop :=
  m ≠ Raise (ValueError first_year_message).

Lemma nve_Ok {A} (a : A) : no_validation_error (Ok a).
Proof. done. Qed.

Lemma nve_bind {A B} (m : result A) (f : A → result B) :
  no_validation_error m → (∀ a, no_validation_error (f a)) →
  no_validation_error (m ≫= f).
Proof.
  intros Hm Hf [Hr|(a & _ & Hr)]%bind_Raise; [done|]. by apply (Hf a).
Qed.

Lemma nve_fmap {A B} (m : result A) (f : A → B) :
  no_validation_error m → no_validation_error (f <$> m).
Proof. destruct m; [done|]. intros Hm [= ->]. by apply Hm. Qed.

Lemma nve_getitem {V} (d : gmap Z V) (k : Z) : no_validation_error (getitem d k).
Proof. unfold getitem. by destruct (d !! k). Qed.

Lemma nve_float_of_int (n : Z) : no_validation_error (float_of_int n).
Proof. unfold float_of_int. by destruct (binary_normalize _ _ _ _ _). Qed.

Lemma nve_round (x : float) : no_validation_error (round x).
Proof. unfold round. by destruct (Prim2SF x). Qed.

Lemma nve_int_truediv (a b : Z) : no_validation_error (int_truediv a b).
Proof.
  unfold int_truediv. case_decide; [done|]. by destruct (SFdiv _ _ _ _).
Qed.


Lemma nve_int_mul_float (n : Z) (x : float) : no_validation_error (int_mul_float n x).
Proof. apply nve_bind; [apply nve_float_of_int|done]. Qed.

Lemma nve_int_sub_float (n : Z) (x : float) : no_validation_error (int_sub_float n x).
Proof. apply nve_bind; [apply nve_float_of_int|done]. Qed.

Lemma nve_dict_fill {V} (f : Z → result V) (ks : list Z) (d : gmap Z V) :
  (∀ k, no_validation_error (f k)) → no_validation_error (dict_fill f ks d).
Proof.
  intros Hf. revert d. induction ks as [|k ks IH]; intros d; simpl; [done|].
  apply nve_bind; [apply Hf|]. intros v. apply IH.
Qed.

Lemma nve_gen_expr {A} (f : Z → result A) (ks : list Z) :
  (∀ k, no_validation_error (f k)) → no_validation_error (gen_expr f ks).
Proof.
  intros Hf. induction ks as [|k ks IH]; simpl; [done|].
  apply nve_bind; [apply Hf|]. intros x. by apply nve_bind.
Qed.

Lemma nve_for_each {S} (body : S → Z → result S) (ks : list Z) (s : S) :
  (∀ s k, no_validation_error (body s k)) → no_validation_error (for_each body ks s).
Proof.
  intros Hb. revert s. induction ks as [|k ks IH]; intros s; simpl; [done|].
  apply nve_bind; [apply Hb|]. intros s'. apply IH.
Qed.

Lemma nve_max_from (d : gmap Z Z) (ks : list Z) (m v : Z) :
  no_validation_error (max_from (getitem d) ks m v).
Proof.
  revert m v. induction ks as [|k ks IH]; intros m v; simpl; [done|].
  apply nve_bind; [apply nve_getitem|]. intros v'. by case_decide.
Qed.

Lemma nve_max_key (d : gmap Z Z) (ks : list Z) :
  no_validation_error (max_key (getitem d) ks).
Proof.
  destruct ks as [|k ks]; [done|].
  change (no_validation_error (v ← getitem d k; max_from (getitem d) ks k v)).
  apply nve_bind; [apply nve_getitem|]. intros v. apply nve_max_from.
Qed.

Lemma nve_promoted (employees : gmap Z Z) (rates : gmap Z float) (level : Z) :
  no_validation_error (promoted employees rates level).
Proof.
  unfold promoted.
  apply nve_bind; [apply nve_getitem|]. intros n.
  apply nve_bind; [apply nve_getitem|]. intros r.
  apply nve_bind; [apply nve_int_mul_float|]. intros x. apply nve_round.
Qed.

Lemma nve_after_attrition (A employees : gmap Z Z) (rates : gmap Z float) (level : Z) :
  no_validation_error (after_attrition A employees rates level).
Proof.
  unfold after_attrition.
  apply nve_bind; [apply nve_getitem|]. intros a.
  apply nve_bind; [apply nve_getitem|]. intros n.
  apply nve_bind; [apply nve_getitem|]. intros r.
  apply nve_bind; [apply nve_int_mul_float|]. intros x.
  apply nve_bind; [apply nve_int_sub_float|]. intros y. apply nve_round.
Qed.

(** Lines 79-165 never raise the validation error. *)
Lemma nve_structure_phase cc cs cpr spr car sar hr ratio target :
  no_validation_error (structure_phase cc cs cpr spr car sar hr ratio target).
Proof.
  unfold structure_phase.
  apply nve_bind.
  { apply nve_for_each. intros A k. unfold promotion_body, promoted_in.
    apply nve_bind; [apply nve_promoted|]. intros ?.
    apply nve_bind; [apply nve_promoted|]. intros ?.
    apply nve_bind; [case_decide; [apply nve_promoted|done]|]. intros ?.
    apply nve_bind; [case_decide; [apply nve_promoted|done]|]. intros ?.
    apply nve_bind; [by apply nve_bind; [apply nve_getitem|]|]. intros ?.
    apply nve_bind; [by apply nve_bind; [apply nve_getitem|]|]. done. }
  intros [Ac As].
  apply nve_bind; [apply nve_dict_fill, nve_after_attrition|]. intros Bc.
  apply nve_bind; [apply nve_dict_fill, nve_after_attrition|]. intros Bs.
  apply nve_bind.
  { apply nve_dict_fill. intros k.
    apply nve_bind; [apply nve_getitem|]. intros ?.
    by apply nve_bind; [apply nve_getitem|]. }
  intros B.
  apply nve_bind.
  { apply nve_bind; [apply nve_int_mul_float|]. intros ?. apply nve_round. }
  intros hiring.
  apply nve_bind.
  { apply nve_dict_fill. intros k.
    apply nve_bind; [apply nve_getitem|]. intros ?.
    apply nve_bind; [apply nve_int_mul_float|]. intros ?. apply nve_round. }
  intros rC.
  apply nve_bind.
  { unfold adjust_allocation. case_decide; [|done].
    apply nve_bind.
    - apply nve_max_key.
    - intros m. by apply nve_bind; [apply nve_getitem|]. }
  intros iC.
  apply nve_bind.
  { apply nve_dict_fill. intros k. by apply nve_bind; [apply nve_getitem|]. }
  intros C.
  apply nve_bind.
  { apply nve_dict_fill. intros k. by apply nve_bind; [apply nve_getitem|]. }
  intros fc.
  apply nve_bind.
  { apply nve_dict_fill. intros k.
    apply nve_bind; [apply nve_getitem|]. intros ?.
    by apply nve_bind; [apply nve_getitem|]. }
  intros fs.
  apply nve_bind.
  { apply nve_dict_fill. intros k.
    apply nve_bind; [apply nve_getitem|]. intros ?.
    by apply nve_bind; [apply nve_getitem|]. }
  intros ft.
  apply nve_bind.
  { case_decide; [|done].
    apply nve_bind; [|intros ?; apply nve_int_truediv].
    apply nve_gen_expr. intros k. by apply nve_bind; [apply nve_getitem|]. }
  intros lvl.
  apply nve_bind; [|done].
  apply nve_fmap, nve_gen_expr. intros k.
  apply nve_bind; [apply nve_getitem|]. intros ?.
  by apply nve_bind; [apply nve_getitem|].
Qed.

Lemma fold_left_add (xs : list Z) (a : Z) :
  fold_left Z.add xs a = a + foldr Z.add 0 xs.
Proof.
  revert a. induction xs as [|x xs IH]; intros a; simpl; [lia|].
  rewrite IH. lia.
Qed.

Lemma int_sum_foldr (xs : list Z) : int_sum xs = foldr Z.add 0 xs.
Proof. unfold int_sum. rewrite fold_left_add. lia. Qed.



(** What lines 79-165 have read of the inputs once they complete. *)
Lemma structure_phase_inputs cc cs cpr spr car sar hr ratio target s level :
  structure_phase cc cs cpr spr car sar hr ratio target = Ok s →
  level ∈ LEVEL_RANGE →
  ∃ (nc ns : Z) (rc rs fc fs : float),
    cc !! level = Some nc ∧ cs !! level = Some ns
    ∧ car !! level = Some rc ∧ sar !! level = Some rs
    ∧ float_of_int nc = Ok fc ∧ float_of_int ns = Ok fs.
Proof.
  intros Hs Hl.
  destruct (attrition_entry_level _ _ _ _ _ _ _ _ _ _ _ Hs Hl)
    as (bc & bs & _ & _ & Hc & Hsoc).
  destruct Hc as (nc & _ & _ & rc & fc & _ & Hnc & _ & _ & _ & Hrc & Hfc & _).
  destruct Hsoc as (ns & _ & _ & rs & fs & _ & Hns & _ & _ & _ & Hrs & Hfs & _).
  by exists nc, ns, rc, rs, fc, fs.
Qed.

Section Validation.
Context `{FloatSum}.

Lemma nve_leaving_total (headcount : gmap Z Z) (rate : gmap Z float) :
  no_validation_error (leaving_total headcount rate).
Proof.
  apply nve_fmap, nve_gen_expr. intros k.
  apply nve_bind; [apply nve_getitem|]. intros ?.
  apply nve_bind; [apply nve_getitem|]. intros ?. apply nve_int_mul_float.
Qed.

Lemma nve_leaving_total_age (headcount : gmap Z Z) (rate ages : gmap Z float) :
  no_validation_error (leaving_total_age headcount rate ages).
Proof.
  apply nve_fmap, nve_gen_expr. intros k.
  apply nve_bind; [apply nve_getitem|]. intros ?.
  apply nve_bind; [apply nve_getitem|]. intros ?.
  apply nve_bind; [apply nve_int_mul_float|]. intros ?.
  by apply nve_bind; [apply nve_getitem|].
Qed.

(** The age-mass is seeded, or the validation error raised, by lines
    168-179 alone. *)
Lemma start_total_age_validation (cc cs : gmap Z Z)
    (ca sa : option (gmap Z float)) (prev : option float) :
  start_total_age cc cs ca sa prev = Raise (ValueError first_year_message)
  ↔ ages_missing ca sa prev.
Proof.
  unfold start_total_age, ages_missing. split.
  - destruct prev as [t|]; [done|].
    destruct ca as [ca|]; [|by intros _; split; [|left]].
    destruct sa as [sa|]; [|by intros _; split; [|right]].
    intros Hr. exfalso. revert Hr.
    apply nve_fmap, nve_gen_expr. intros k.
    apply nve_bind; [apply nve_getitem|]. intros ?.
    apply nve_bind; [apply nve_getitem|]. intros ?.
    apply nve_bind; [apply nve_int_mul_float|]. intros ?.
    apply nve_bind; [apply nve_getitem|]. intros ?.
    apply nve_bind; [apply nve_getitem|]. intros ?.
    by apply nve_bind; [apply nve_int_mul_float|].
  - intros [-> [->| ->]]; [done|]. by destruct ca.
Qed.

Lemma age_phase_validation s cc cs ca sa cl sl snh cnh car sar prev :
  age_phase s cc cs ca sa cl sl snh cnh car sar prev
  = Raise (ValueError first_year_message)
  ↔ ages_missing ca sa prev.
Proof.
  unfold age_phase. split.
  - intros [Hr|(start & _ & Hr)]%bind_Raise;
      [by apply start_total_age_validation in Hr|].
    exfalso. revert Hr.
    apply nve_bind; [apply nve_leaving_total|]. intros ?.
    apply nve_bind; [apply nve_leaving_total|]. intros ?.
    apply nve_bind; [apply nve_leaving_total_age|]. intros ?.
    apply nve_bind; [apply nve_leaving_total_age|]. intros ?.
    apply nve_bind; [apply nve_int_sub_float|]. intros ?.
    apply nve_bind; [by apply nve_bind; [apply nve_float_of_int|]|]. intros ?.
    apply nve_bind; [apply nve_int_mul_float|]. intros ?.
    apply nve_bind.
    { apply nve_fmap, nve_gen_expr. intros k.
      apply nve_bind; [apply nve_getitem|]. intros ?.
      apply nve_bind; [apply nve_getitem|]. intros ?. apply nve_int_mul_float. }
    intros ?.
    apply nve_bind.
    { case_decide; [|done]. unfold float_div_int.
      apply nve_bind; [apply nve_float_of_int|]. intros ?. by case_decide. }
    intros ?.
    apply nve_bind; [|done].
    case_decide; [|done].
    apply nve_bind; [apply nve_gen_expr, nve_getitem|]. intros ?.
    apply nve_int_truediv.
  - intros Hm.
    by rewrite (proj2 (start_total_age_validation cc cs ca sa prev) Hm).
Qed.

(** The validation error is raised in the first year only, and only when an
    age mapping is missing, whatever the inputs. *)
Lemma validation_error_only_when_ages_missing
    cc cs ca sa cl sl snh cnh cpr spr car sar hr ratio target prev :
  predict_one_year cc cs ca sa cl sl snh cnh cpr spr car sar hr ratio target prev
  = Raise (ValueError first_year_message) →
  ages_missing ca sa prev.
Proof.
  unfold predict_one_year.
  intros [Hr|(s & _ & Hr)]%bind_Raise.
  - by apply nve_structure_phase in Hr.
  - by apply age_phase_validation in Hr.
Qed.
End Validation.

Section Returns.
Context `{FloatSum}.



End Returns.






(** ** The multi-year forecast *)

Section MultiYearFacts.
Context `{FloatSum}.

Lemma years_loop_chain (initial_params : Params.t)
    (campus_ages social_ages : gmap Z float) (n : nat) (year : Z)
    (st st' : Loop.t) :
  for_each (year_body initial_params campus_ages social_ages)
           (seqZ year (Z.of_nat n)) st = Ok st' →
  ∃ records,
    Loop.multi_year_results st' = Loop.multi_year_results st ++ records
    ∧ length records = n
    ∧ years_chain initial_params campus_ages social_ages year
        (Loop.current_year_campus st) (Loop.current_year_social st)
        (Loop.previous_predicted_total_age st) records.
Proof.
  revert year st. induction n as [|n IH]; intros year st Hloop.
  - injection Hloop as <-. exists []. by rewrite app_nil_r.
  - rewrite seqZ_cons in Hloop by lia. simpl in Hloop.
    apply bind_Ok in Hloop as (st1 & Hbody & Hloop).
    replace (Z.pred (Z.of_nat (S n))) with (Z.of_nat n) in Hloop by lia.
    destruct (IH _ _ Hloop) as (records & Hres & Hlen & Hchain).
    unfold year_body in Hbody.
    apply bind_Ok in Hbody as (p & Hp & [= <-]). simpl in *.
    eexists (_ :: records). split; [|split].
    + by rewrite Hres, <- app_assoc.
    + simpl. by rewrite Hlen.
    + simpl. exists p. split; [done|]. split; [done|].
      by replace (year + 1) with (Z.succ year) by lia.
Qed.

(** Two consecutive records of a chain: the later one is the single call
    on what the earlier one ended with. *)
Lemma years_chain_step (initial_params : Params.t)
    (campus_ages social_ages : gmap Z float) (records : list YearRecord.t)
    (year : Z) (campus social : gmap Z Z) (carried : option float)
    (k : nat) (r_prev r : YearRecord.t) :
  years_chain initial_params campus_ages social_ages year campus social carried
    records →
  records !! k = Some r_prev → records !! S k = Some r →
  YearRecord.year r_prev = year + Z.of_nat k + 1
  ∧ ∃ p, yearly_call initial_params
           (YearRecord.final_campus r_prev) (YearRecord.final_social r_prev)
           campus_ages social_ages (Some (YearRecord.total_age r_prev))
           (year + Z.of_nat k + 1) = Ok p
         ∧ r = year_record (year + Z.of_nat k + 1)
                 (YearRecord.final_campus r_prev)
                 (YearRecord.final_social r_prev) p.
Proof.
  revert year campus social carried k r_prev r.
  induction records as [|r0 records IH];
    intros year campus social carried k r_prev r Hchain Hprev Hr; [done|].
  destruct Hchain as (p0 & Hp0 & Hr0 & Hchain).
  destruct k as [|k].
  - injection Hprev as <-. simpl in Hr.
    destruct records as [|r1 records]; [done|]. injection Hr as <-.
    destruct Hchain as (p1 & Hp1 & Hr1 & _). subst r0 r1. simpl.
    split; [lia|]. exists p1.
    by replace (year + Z.of_nat 0 + 1) with (year + 1) by lia.
  - simpl in Hprev, Hr.
    destruct (IH _ _ _ _ _ _ _ Hchain Hprev Hr) as (Hyear & p & Hp & ->).
    split; [lia|]. exists p.
    by replace (year + Z.of_nat (S k) + 1) with (year + 1 + Z.of_nat k + 1)
      by lia.
Qed.
End MultiYearFacts.

Lemma range_of_nat (n : Z) : range 0 n = seqZ 0 (Z.of_nat (Z.to_nat n)).
Proof. unfold range, seqZ. by rewrite Z.sub_0_r, Nat2Z.id. Qed.

(** C8: a forecast over [N] years that returns holds [N] records, in the
    order of the years.  The first is the call on the supplied head-counts
    and ages; every later one is identical to the record of the single
    [predict_one_year] call that starts from the final campus and social
    head-counts of the year before, carries its age-mass, and is given no
    per-channel ages.  So the third record of a three-year run is what one
    call on the second year's output yields. *)
Theorem chaining_consistency `{FloatSum} (initial_params : Params.t)
    (forecast_years : Z) (results : list YearRecord.t) :
  predict_multiple_years initial_params forecast_years = Ok results →
  Z.of_nat (length results) = Z.max 0 forecast_years
  ∧ (∀ r, results !! 0%nat = Some r →
       ∃ p, predict_one_year
              (Params.current_campus_employees initial_params)
              (Params.current_social_employees initial_params)
              (Some (Params.current_campus_ages initial_params))
              (Some (Params.current_social_ages initial_params))
              (Params.campus_leaving_ages initial_params)
              (Params.social_leaving_ages initial_params)
              (Params.social_new_hire_ages initial_params)
              (Params.campus_new_hire_age initial_params)
              (Params.campus_promotion_rates initial_params)
              (Params.social_promotion_rates initial_params)
              (Params.campus_attrition_rates initial_params)
              (Params.social_attrition_rates initial_params)
              (Params.hiring_ratios initial_params)
              (Params.campus_ratio initial_params)
              (Params.target_total initial_params)
              None = Ok p
            ∧ r = year_record 0
                    (Params.current_campus_employees initial_params)
                    (Params.current_social_employees initial_params) p)
  ∧ (∀ (k : nat) (r_prev r : YearRecord.t),
       results !! k = Some r_prev → results !! S k = Some r →
       YearRecord.year r = Z.of_nat k + 2
       ∧ YearRecord.current_campus r = YearRecord.final_campus r_prev
       ∧ YearRecord.current_social r = YearRecord.final_social r_prev
       ∧ ∃ p, predict_one_year
                (YearRecord.final_campus r_prev)
                (YearRecord.final_social r_prev)
                None None
                (Params.campus_leaving_ages initial_params)
                (Params.social_leaving_ages initial_params)
                (Params.social_new_hire_ages initial_params)
                (Params.campus_new_hire_age initial_params)
                (Params.campus_promotion_rates initial_params)
                (Params.social_promotion_rates initial_params)
                (Params.campus_attrition_rates initial_params)
                (Params.social_attrition_rates initial_params)
                (Params.hiring_ratios initial_params)
                (Params.campus_ratio initial_params)
                (Params.target_total initial_params)
                (Some (YearRecord.total_age r_prev)) = Ok p
              ∧ r = year_record (Z.of_nat k + 1)
                      (YearRecord.final_campus r_prev)
                      (YearRecord.final_social r_prev) p).
Proof.
  unfold predict_multiple_years. intros (st & Hloop & ->)%fmap_Ok.
  rewrite range_of_nat in Hloop.
  destruct (years_loop_chain _ _ _ _ _ _ _ Hloop)
    as (records & Hres & Hlen & Hchain).
  simpl in Hres, Hchain. rewrite Hres. unfold copy in Hchain.
  split; [rewrite Hlen; lia|]. split.
  - intros r Hr. destruct records as [|r0 records]; [done|].
    injection Hr as ->. destruct Hchain as (p & Hp & -> & _).
    exists p. split; [|done]. unfold yearly_call in Hp.
    by rewrite !decide_True, decide_False in Hp by lia.
  - intros k r_prev r Hprev Hr.
    destruct (years_chain_step _ _ _ _ _ _ _ _ _ _ _ Hchain Hprev Hr)
      as (Hyear & p & Hp & ->).
    simpl. split; [lia|]. split; [done|]. split; [done|].
    exists p. split; [|by replace (0 + Z.of_nat k + 1) with (Z.of_nat k + 1) by lia].
    unfold yearly_call in Hp.
    by rewrite !decide_False, decide_True in Hp by lia.
Qed.

Lemma chaining_consistency_witness :
  ∃ results, growth_forecast = Ok results
    ∧ Z.of_nat (length results) = Z.max 0 3
    ∧ (∀ r, results !! 0%nat = Some r →
         ∃ p, growth_call = Ok p
              ∧ r = year_record 0 Growth.campus_employees
                      Growth.social_employees p)
    ∧ (∀ (k : nat) (r_prev r : YearRecord.t),
         results !! k = Some r_prev → results !! S k = Some r →
         YearRecord.year r = Z.of_nat k + 2
         ∧ YearRecord.current_campus r = YearRecord.final_campus r_prev
         ∧ YearRecord.current_social r = YearRecord.final_social r_prev
         ∧ ∃ p, @predict_one_year float_sum_left
                  (YearRecord.final_campus r_prev)
                  (YearRecord.final_social r_prev)
                  None None
                  Growth.campus_ages Growth.social_ages Growth.social_ages
                  23%float
                  Growth.promotion_rates Growth.promotion_rates
                  Growth.attrition_rates Growth.attrition_rates
                  Growth.hiring_ratios Growth.campus_ratio Growth.target_total
                  (Some (YearRecord.total_age r_prev)) = Ok p
                ∧ r = year_record (Z.of_nat k + 1)
                        (YearRecord.final_campus r_prev)
                        (YearRecord.final_social r_prev) p).
Proof.
  eexists. split.
  - vm_compute. reflexivity.
  - apply (@chaining_consistency float_sum_left Growth.params 3).
    vm_compute. reflexivity.
Defined.

(** The three-year forecast of the growing organisation: 303, 330 and 353
    employees, whose ages add up to 8409.71875, 9070.53125 and 9636.0625. *)
Example growth_three_years :
  ∃ r1 r2 r3, growth_forecast = Ok [r1; r2; r3]
    ∧ (YearRecord.year r1, YearRecord.year r2, YearRecord.year r3) = (1, 2, 3)
    ∧ sum_values (YearRecord.final_structure r1) = 303
    ∧ sum_values (YearRecord.final_structure r2) = 330
    ∧ sum_values (YearRecord.final_structure r3) = 353
    ∧ YearRecord.total_age r1 = 8409.71875%float
    ∧ YearRecord.total_age r2 = 9070.53125%float
    ∧ YearRecord.total_age r3 = 9636.0625%float.
Proof.
  do 3 eexists. split; [vm_compute; reflexivity|].
  repeat split; vm_compute; reflexivity.
Qed.

(** ** The current metrics *)

Lemma fold_left_add64_zeros (xs : list Z) :
  Forall (λ x, x = 0) xs → fold_left add64 xs 0 = 0.
Proof.
  induction 1 as [|x xs -> _ IH]; [done|]. simpl.
  by change (add64 0 0) with 0.
Qed.

(** The growing organisation today: 226 employees, of average level
    594 / 226 = 2.628..., average age 28.201..., 109 of them from campus. *)
Example growth_metrics :
  @calculate_current_metrics float_sum_left growth_table
  = Ok (Metrics.mk 226 0x1.506cbe4d06cbep+1 0x1.c338a31d738a3p+4
                   0x1.ede0487ede048p-2).
Proof. vm_compute. reflexivity. Qed.

(** C9: on a table whose campus and social head-counts are zero in every
    row, [calculate_current_metrics] returns a total of 0 and the three
    metrics [current_average_level], [current_average_age] and
    [current_campus_ratio] equal to 0.0; the divisions are not evaluated,
    and nothing is raised. *)
Theorem metrics_of_empty_organisation `{FloatSum} (df : list Row.t) :
  Forall (λ r, Row.campus_employee r = 0 ∧ Row.social_employee r = 0) df →
  calculate_current_metrics df = Ok (Metrics.mk 0 0%float 0%float 0%float).
Proof.
  intros Hzero. unfold calculate_current_metrics.
  assert (fold_left add64
            (map (λ r, add64 (Row.campus_employee r) (Row.social_employee r)) df)
            0 = 0) as ->.
  { apply fold_left_add64_zeros, Forall_map.
    eapply Forall_impl; [exact Hzero|]. by intros r [-> ->]. }
  by rewrite !decide_False by lia.
Qed.

Lemma metrics_of_empty_organisation_witness :
  Forall (λ r, Row.campus_employee r = 0 ∧ Row.social_employee r = 0)
         empty_table
  ∧ @calculate_current_metrics float_sum_left empty_table
    = Ok (Metrics.mk 0 0%float 0%float 0%float).
Proof.
  assert (Forall (λ r, Row.campus_employee r = 0 ∧ Row.social_employee r = 0)
                 empty_table) as Hzero.
  { unfold empty_table. rewrite LEVEL_RANGE_levels. by repeat constructor. }
  split; [exact Hzero|].
  exact (@metrics_of_empty_organisation float_sum_left empty_table Hzero).
Defined.

(** ** The inputs are left as they were *)

(** On the growing organisation the method on references returns the
    tuple the method on values returns, in four new dictionaries. *)
Example growth_store_agrees :
  ∃ t, growth_store_call.2 = Ok t
    ∧ Ok (tuple_values growth_store_call.1 t) = growth_call
    ∧ Store.int_dicts growth_heap !! Store.Tuple.final_campus t = None
    ∧ Store.int_dicts growth_heap !! Store.Tuple.final_social t = None
    ∧ Store.int_dicts growth_heap !! Store.Tuple.final_structure t = None
    ∧ Store.int_dicts growth_heap !! Store.Tuple.social_hiring t = None.
Proof.
  eexists. split; [vm_compute; reflexivity|].
  split; [vm_compute; reflexivity|].
  repeat split; vm_compute; reflexivity.
Qed.

Lemma keeps_refl (h : Store.heap) : keeps h h.
Proof. by split. Qed.

Lemma frames_ret {A} (h0 : Store.heap) (a : A) (φ : A → Prop) :
  φ a → frames h0 (mret a) φ.
Proof. intros Ha h Hh. split; [done|]. by intros a' [= <-]. Qed.

Lemma frames_bind {A B} (h0 : Store.heap) (m : Store.M A) (f : A → Store.M B)
    (φ : A → Prop) (ψ : B → Prop) :
  frames h0 m φ → (∀ a, φ a → frames h0 (f a) ψ) → frames h0 (m ≫= f) ψ.
Proof.
  intros Hm Hf h Hh. destruct (Hm h Hh) as [Hkeep Hφ].
  unfold mbind, Store.M_bind. destruct (m h) as [h' [a|e]]; simpl in *.
  - by apply (Hf a); [apply Hφ|].
  - by split.
Qed.

Lemma frames_weaken {A} (h0 : Store.heap) (m : Store.M A) (φ ψ : A → Prop) :
  frames h0 m φ → (∀ a, φ a → ψ a) → frames h0 m ψ.
Proof.
  intros Hm Himp h Hh. destruct (Hm h Hh) as [Hkeep Hφ].
  split; [done|]. intros a Ha. by apply Himp, Hφ.
Qed.

(** An expression writes nothing. *)
Lemma frames_eval {A} (h0 : Store.heap) (e : Store.heap → result A) :
  frames h0 (Store.eval e) (λ _, True).
Proof. by intros h Hh. Qed.

(** [{}] is a new object. *)
Lemma frames_new_dict (h0 : Store.heap) : frames h0 Store.new_dict (is_new h0).
Proof.
  intros h [Hfloat Hint]. unfold Store.new_dict. simpl.
  pose proof (is_fresh (dom (Store.int_dicts h))) as Hfresh.
  apply not_elem_of_dom in Hfresh.
  split; [split; [done|]|].
  - intros r d Hr. simpl. rewrite lookup_insert_ne; [by apply Hint|].
    intros <-. apply Hint in Hr. congruence.
  - intros r [= <-]. unfold is_new.
    destruct (Store.int_dicts h0 !! _) as [d|] eqn:Hd; [|done].
    apply Hint in Hd. congruence.
Qed.

(** [d[k] = v] on a new object keeps the old ones. *)
Lemma frames_setitem (h0 : Store.heap) (d : Store.ref) (k v : Z) :
  is_new h0 d → frames h0 (Store.setitem d k v) (λ _, True).
Proof.
  intros Hd h [Hfloat Hint]. unfold Store.setitem. simpl.
  split; [|done]. split; [done|].
  intros r dict Hr. simpl. rewrite lookup_alter_ne; [by apply Hint|].
  intros <-. unfold is_new in Hd. congruence.
Qed.

Lemma frames_for_each (h0 : Store.heap) (body : Z → Store.M unit) (ks : list Z) :
  (∀ k, frames h0 (body k) (λ _, True)) →
  frames h0 (Store.for_each body ks) (λ _, True).
Proof.
  intros Hbody. induction ks as [|k ks IH]; simpl.
  - by apply frames_ret.
  - eapply frames_bind; [apply Hbody|]. by intros _ _.
Qed.

(** A comprehension fills a new object. *)
Lemma frames_dict_comp (h0 : Store.heap) (f : Z → Store.heap → result Z)
    (ks : list Z) :
  frames h0 (Store.dict_comp f ks) (is_new h0).
Proof.
  unfold Store.dict_comp.
  eapply frames_bind; [apply frames_new_dict|]. intros d Hd.
  eapply frames_bind.
  - apply frames_for_each. intros k.
    eapply frames_bind; [apply frames_eval|]. intros v _.
    by apply frames_setitem.
  - intros _ _. by apply frames_ret.
Qed.

Section StoreFacts.
Context `{FloatSum}.

Lemma frames_predict_one_year (h0 : Store.heap)
    cc cs ca sa cl sl snh cnh cpr spr car sar hr ratio target prev :
  frames h0
    (Store.predict_one_year cc cs ca sa cl sl snh cnh cpr spr car sar hr ratio
       target prev)
    (λ t, is_new h0 (Store.Tuple.final_campus t)
          ∧ is_new h0 (Store.Tuple.final_social t)
          ∧ is_new h0 (Store.Tuple.final_structure t)
          ∧ is_new h0 (Store.Tuple.social_hiring t)).
Proof.
  unfold Store.predict_one_year.
  eapply frames_bind; [apply frames_new_dict|]. intros A_campus HAc.
  eapply frames_bind; [apply frames_new_dict|]. intros A_social HAs.
  eapply frames_bind.
  { apply frames_for_each. intros level.
    do 5 (eapply frames_bind; [apply frames_eval|]; intros ? _).
    eapply frames_bind; [by apply frames_setitem|]. intros _ _.
    eapply frames_bind; [apply frames_eval|]. intros ? _.
    by apply frames_setitem. }
  intros _ _.
  eapply frames_bind; [apply frames_dict_comp|]. intros B_campus HBc.
  eapply frames_bind; [apply frames_dict_comp|]. intros B_social HBs.
  eapply frames_bind; [apply frames_dict_comp|]. intros B HB.
  eapply frames_bind; [apply frames_eval|]. intros total_B _.
  eapply frames_bind; [apply frames_eval|]. intros campus_hiring _.
  eapply frames_bind; [apply frames_dict_comp|]. intros initial_C HiC.
  eapply frames_bind; [apply frames_eval|]. intros initial_total _.
  eapply frames_bind.
  { case_decide; [|by apply (frames_ret h0 tt (λ _, True))].
    eapply frames_bind; [apply frames_eval|]. intros m _.
    eapply frames_bind; [apply frames_eval|]. intros v _.
    by apply frames_setitem. }
  intros _ _.
  eapply frames_bind; [apply frames_dict_comp|]. intros C HC.
  eapply frames_bind; [apply frames_dict_comp|]. intros final_campus Hfc.
  eapply frames_bind; [apply frames_dict_comp|]. intros final_social Hfs.
  eapply frames_bind; [apply frames_dict_comp|]. intros final_structure Hft.
  do 4 (eapply frames_bind; [apply frames_eval|]; intros ? _).
  by apply frames_ret.
Qed.

(** C10: whatever store [predict_one_year] is called in and whatever
    references it is given, it ends, by a return or by an exception, in a
    store where every dictionary that existed at the call is as it was:
    the dictionaries of floats (ages, rates, hiring ratios) are the same,
    and each dictionary of integers (the head-counts) has the entries it
    had.  The four dictionaries of the returned tuple are new objects. *)
Theorem inputs_left_unchanged
    cc cs ca sa cl sl snh cnh cpr spr car sar hr ratio target prev
    (h : Store.heap) :
  Store.float_dicts
    (Store.predict_one_year cc cs ca sa cl sl snh cnh cpr spr car sar hr ratio
       target prev h).1
  = Store.float_dicts h
  ∧ (∀ r d, Store.int_dicts h !! r = Some d →
       Store.int_dicts
         (Store.predict_one_year cc cs ca sa cl sl snh cnh cpr spr car sar hr
            ratio target prev h).1 !! r = Some d)
  ∧ (∀ r, Store.float_dict
            (Store.predict_one_year cc cs ca sa cl sl snh cnh cpr spr car sar
               hr ratio target prev h).1 r
          = Store.float_dict h r)
  ∧ (∀ r, is_Some (Store.int_dicts h !! r) →
          Store.int_dict
            (Store.predict_one_year cc cs ca sa cl sl snh cnh cpr spr car sar
               hr ratio target prev h).1 r
          = Store.int_dict h r)
  ∧ (∀ t, (Store.predict_one_year cc cs ca sa cl sl snh cnh cpr spr car sar hr
             ratio target prev h).2 = Ok t →
          Store.int_dicts h !! Store.Tuple.final_campus t = None
          ∧ Store.int_dicts h !! Store.Tuple.final_social t = None
          ∧ Store.int_dicts h !! Store.Tuple.final_structure t = None
          ∧ Store.int_dicts h !! Store.Tuple.social_hiring t = None).
Proof.
  destruct (frames_predict_one_year h cc cs ca sa cl sl snh cnh cpr spr car sar
              hr ratio target prev h (keeps_refl h)) as [[Hfloat Hint] Hnew].
  split; [done|]. split; [done|]. split.
  { intros r. unfold Store.float_dict. by rewrite Hfloat. }
  split; [|done].
  intros r [d Hd]. unfold Store.int_dict. by rewrite (Hint _ _ Hd), Hd.
Qed.
End StoreFacts.

(** * Further properties of the engine *)

(** ** Sums over lists of keys *)

Lemma sum_over_ext (ks : list Z) (f g : Z → Z) :
  (∀ k, k ∈ ks → f k = g k) → sum_over ks f = sum_over ks g.
Proof.
  induction ks as [|k ks IH]; intros Hfg; simpl; [done|].
  rewrite (Hfg k) by (by left). rewrite IH; [done|].
  intros k' Hk'. apply Hfg. by right.
Qed.

Lemma sum_over_add (ks : list Z) (f g : Z → Z) :
  sum_over ks (λ k, f k + g k) = sum_over ks f + sum_over ks g.
Proof. induction ks as [|k ks IH]; simpl; lia. Qed.

Lemma sum_over_sub (ks : list Z) (f g : Z → Z) :
  sum_over ks (λ k, f k - g k) = sum_over ks f - sum_over ks g.
Proof. induction ks as [|k ks IH]; simpl; lia. Qed.

Lemma sum_over_nonneg (ks : list Z) (f : Z → Z) :
  (∀ k, k ∈ ks → 0 ≤ f k) → 0 ≤ sum_over ks f.
Proof.
  induction ks as [|k ks IH]; intros Hf; simpl; [done|].
  assert (0 ≤ f k) by (apply Hf; by left).
  assert (0 ≤ sum_over ks f) by (apply IH; intros k' Hk'; apply Hf; by right).
  lia.
Qed.

(** A sum of non-negative terms is 0 only when each term is. *)
Lemma sum_over_zero (ks : list Z) (f : Z → Z) :
  (∀ k, k ∈ ks → 0 ≤ f k) → sum_over ks f = 0 → ∀ k, k ∈ ks → f k = 0.
Proof.
  induction ks as [|k ks IH]; intros Hf Hsum k' Hk'; [by apply elem_of_nil in Hk'|].
  simpl in Hsum.
  assert (0 ≤ f k) by (apply Hf; by left).
  assert (0 ≤ sum_over ks f)
    by (apply sum_over_nonneg; intros k1 Hk1; apply Hf; by right).
  apply elem_of_cons in Hk' as [->|Hk']; [lia|].
  apply IH; [|lia|done]. intros k1 Hk1. apply Hf. by right.
Qed.

(** The sum of a quantity that sits at one key only. *)
Lemma sum_over_single (ks : list Z) (k0 v : Z) :
  NoDup ks → k0 ∈ ks →
  sum_over ks (λ k, if decide (k = k0) then v else 0) = v.
Proof.
  induction 1 as [|k ks Hk Hnd IH]; intros Hin; [by apply elem_of_nil in Hin|].
  simpl. case_decide as Heq.
  - subst k. rewrite (sum_over_ext ks _ (λ _, 0)).
    + clear. induction ks as [|k ks IH]; simpl; lia.
    + intros k' Hk'. rewrite decide_False; [done|]. by intros ->.
  - apply elem_of_cons in Hin as [->|Hin]; [done|]. rewrite IH; [lia|done].
Qed.

Lemma keyed_by_levels_lookup {V} (d : gmap Z V) :
  keyed_by_levels d ↔
  (∀ k, k ∈ LEVEL_RANGE → is_Some (d !! k)) ∧ (∀ k, k ∉ LEVEL_RANGE → d !! k = None).
Proof.
  unfold keyed_by_levels. split.
  - intros Hd. split; [intros k Hk; by apply Hd|].
    intros k Hk. apply eq_None_not_Some. intros Hs. by apply Hk, Hd.
  - intros [Hin Hout] k. split; [|apply Hin].
    intros Hs. destruct (decide (k ∈ LEVEL_RANGE)) as [|Hk]; [done|].
    rewrite (Hout k Hk) in Hs. by destruct Hs.
Qed.

(** [sum(d.values())] is the sum over the levels for a dictionary keyed by
    them. *)
Lemma sum_values_level_total (d : gmap Z Z) :
  keyed_by_levels d → sum_values d = level_total d.
Proof.
  intros [Hin Hout]%keyed_by_levels_lookup.
  apply (sum_values_keys LEVEL_RANGE d (entry d));
    [apply NoDup_LEVEL_RANGE| |done].
  intros k Hk. unfold entry. by destruct (Hin k Hk) as [v ->].
Qed.

(** A comprehension over the levels yields a dictionary keyed by them. *)
Lemma dict_comp_keyed {V} (f : Z → result V) (d : gmap Z V) :
  dict_comp f LEVEL_RANGE = Ok d → keyed_by_levels d.
Proof.
  intros Hd. apply keyed_by_levels_lookup. split; intros k Hk.
  - destruct (dict_comp_lookup _ _ _ Hd k) as [Hin _].
    destruct (Hin Hk) as (v & _ & ->). by eexists.
  - by destruct (dict_comp_lookup _ _ _ Hd k) as [_ Hout]; apply Hout.
Qed.

Lemma promotion_pass_keyed cc cs cpr spr (Ac As : gmap Z Z) :
  promotion_pass cc cs cpr spr = Ok (Ac, As) →
  keyed_by_levels Ac ∧ keyed_by_levels As.
Proof.
  intros HA. split; apply keyed_by_levels_lookup; split; intros k Hk.
  - destruct (promotion_pass_lookup _ _ _ _ _ _ _ HA Hk)
      as (? & ? & ? & ? & ? & ? & _ & _ & _ & _ & _ & _ & -> & _). by eexists.
  - destruct (promotion_loop_lookup _ _ _ _ _ _ _ HA k) as [_ Hout].
    destruct (Hout Hk) as [Heq _]. simpl in Heq. by rewrite Heq.
  - destruct (promotion_pass_lookup _ _ _ _ _ _ _ HA Hk)
      as (? & ? & ? & ? & ? & ? & _ & _ & _ & _ & _ & _ & _ & ->). by eexists.
  - destruct (promotion_loop_lookup _ _ _ _ _ _ _ HA k) as [_ Hout].
    destruct (Hout Hk) as [_ Heq]. simpl in Heq. by rewrite Heq.
Qed.

(** ** What the promotion pass conserves *)

Lemma promotion_entry_value (headcount : gmap Z Z) (rates : gmap Z float)
    (A : gmap Z Z) (level : Z) :
  level ∈ LEVEL_RANGE →
  promotion_entry headcount rates A level →
  entry A level
  = entry headcount level - promoted_count headcount rates level
    + (if decide (level = MIN_LEVEL) then 0
       else promoted_count headcount rates (level - 1)).
Proof.
  intros Hl%elem_of_LEVEL_RANGE (n & out & inn & Hn & Hout & Hfirst & Hrest & HA).
  unfold entry, promoted_count. rewrite HA, Hn, Hout. simpl.
  case_decide as Hmin.
  - by rewrite (Hfirst Hmin).
  - by rewrite Hrest by lia.
Qed.

Lemma level_in_range (level : Z) : 1 ≤ level ≤ 7 → level ∈ LEVEL_RANGE.
Proof. intros Hl. apply elem_of_LEVEL_RANGE. unfold MIN_LEVEL, MAX_LEVEL. lia. Qed.

Lemma promotion_total (headcount : gmap Z Z) (rates : gmap Z float) (A : gmap Z Z) :
  keyed_by_levels A →
  (∀ level, level ∈ LEVEL_RANGE → promotion_entry headcount rates A level) →
  sum_values A
  = level_total headcount - promoted_count headcount rates MAX_LEVEL.
Proof.
  intros Hkeys Hentry. rewrite (sum_values_level_total _ Hkeys).
  unfold level_total. rewrite LEVEL_RANGE_levels. simpl.
  rewrite !(promotion_entry_value headcount rates A)
    by (try apply Hentry; apply level_in_range; lia).
  unfold MIN_LEVEL, MAX_LEVEL.
  rewrite decide_True by done. rewrite !decide_False by done.
  change (2 - 1) with 1. change (3 - 1) with 2. change (4 - 1) with 3.
  change (5 - 1) with 4. change (6 - 1) with 5. change (7 - 1) with 6.
  lia.
Qed.

(** X1: the promotion pass conserves the head-count of each channel but
    for the promotions out of level 7: over the seven levels the
    post-promotion head-counts add up to the starting head-counts minus
    [round(headcount[7] * promotion_rate[7])]. *)
Theorem promotion_conserves_headcount cc cs cpr spr car sar hr ratio target s :
  structure_phase cc cs cpr spr car sar hr ratio target = Ok s →
  ∃ top_campus top_social,
    promoted cc cpr MAX_LEVEL = Ok top_campus
    ∧ promoted cs spr MAX_LEVEL = Ok top_social
    ∧ sum_values (Locals.A_campus s) = level_total cc - top_campus
    ∧ sum_values (Locals.A_social s) = level_total cs - top_social.
Proof.
  intros Hs.
  destruct (structure_phase_inv _ _ _ _ _ _ _ _ _ _ Hs) as (HA & _).
  destruct (promotion_pass_keyed _ _ _ _ _ _ HA) as [HkAc HkAs].
  assert (Htop : MAX_LEVEL ∈ LEVEL_RANGE) by (apply level_in_range; done).
  destruct (promotion_pass_lookup _ _ _ _ _ _ _ HA Htop)
    as (_ & _ & outc & outs & _ & _ & _ & _ & Houtc & Houts & _).
  exists outc, outs. split; [done|]. split; [done|]. split.
  - rewrite (promotion_total cc cpr) ; [|done|].
    + unfold promoted_count. by rewrite Houtc.
    + intros level Hl. by apply (promotion_entry_level _ _ _ _ _ _ _ HA).
  - rewrite (promotion_total cs spr) ; [|done|].
    + unfold promoted_count. by rewrite Houts.
    + intros level Hl. by apply (promotion_entry_level _ _ _ _ _ _ _ HA).
Qed.

Lemma promotion_conserves_headcount_witness :
  ∃ s, Growth.structure = Ok s
    ∧ ∃ top_campus top_social,
        promoted Growth.campus_employees Growth.promotion_rates MAX_LEVEL
        = Ok top_campus
        ∧ promoted Growth.social_employees Growth.promotion_rates MAX_LEVEL
          = Ok top_social
        ∧ sum_values (Locals.A_campus s)
          = level_total Growth.campus_employees - top_campus
        ∧ sum_values (Locals.A_social s)
          = level_total Growth.social_employees - top_social.
Proof.
  eexists. split.
  - vm_compute. reflexivity.
  - apply (promotion_conserves_headcount
             Growth.campus_employees Growth.social_employees
             Growth.promotion_rates Growth.promotion_rates
             Growth.attrition_rates Growth.attrition_rates
             Growth.hiring_ratios Growth.campus_ratio Growth.target_total).
    vm_compute. reflexivity.
Defined.

(** ** The predicted total and the target *)

Lemma adjusted_allocation_keyed cc cs cpr spr car sar hr ratio target s :
  structure_phase cc cs cpr spr car sar hr ratio target = Ok s →
  keyed_by_levels (Locals.initial_C s).
Proof.
  intros Hs.
  destruct (structure_phase_inv _ _ _ _ _ _ _ _ _ _ Hs)
    as (_ & _ & _ & _ & _ & _ & _ & Hrounded & Hadj & _).
  apply keyed_by_levels_lookup. split; intros k Hk.
  - destruct (structure_phase_level _ _ _ _ _ _ _ _ _ _ _ Hs Hk)
      as (_ & _ & v & _ & _ & _ & _ & _ & -> & _). by eexists.
  - rewrite (adjust_allocation_outside _ _ _ _ Hadj Hk).
    by destruct (rounded_allocation_lookup _ _ _ k Hrounded) as [_ Hout];
      apply Hout.
Qed.

(** The final structure adds up to the target plus what the clamp added. *)
Lemma predicted_total_decomposition cc cs cpr spr car sar hr ratio target s :
  structure_phase cc cs cpr spr car sar hr ratio target = Ok s →
  Locals.predicted_total s
  = target + sum_over LEVEL_RANGE
               (λ level, Z.max 0 (entry (Locals.initial_C s) level)
                         - entry (Locals.initial_C s) level).
Proof.
  intros Hs.
  pose proof (adjusted_allocation_keyed _ _ _ _ _ _ _ _ _ _ Hs) as HkiC.
  destruct (structure_phase_inv _ _ _ _ _ _ _ _ _ _ Hs)
    as (_ & _ & _ & HB & HtB & _ & Hneed & _ & Hadj & _ & _ & _ & Hft & Htot).
  pose proof (adjust_allocation_sum _ _ _ Hadj) as HsumiC.
  rewrite (sum_values_level_total _ HkiC) in HsumiC.
  rewrite Htot, (sum_values_level_total _ (dict_comp_keyed _ _ Hft)).
  rewrite HtB, (sum_values_level_total _ (dict_comp_keyed _ _ HB)) in Hneed.
  unfold level_total in *.
  rewrite (sum_over_ext _ (entry (Locals.final_structure s))
             (λ level, (entry (Locals.B s) level
                        + (if decide (level = MIN_LEVEL)
                           then Locals.campus_hiring s else 0))
                       + Z.max 0 (entry (Locals.initial_C s) level))).
  - rewrite sum_over_sub, !sum_over_add.
    rewrite (sum_over_single LEVEL_RANGE MIN_LEVEL)
      by (apply NoDup_LEVEL_RANGE || by apply level_in_range).
    lia.
  - intros level Hl.
    destruct (structure_phase_level _ _ _ _ _ _ _ _ _ _ _ Hs Hl)
      as (bc & bs & v & _ & _ & _ & _ & HBl & HiC & _ & _ & _ & Hfs).
    unfold entry. rewrite Hfs, HBl, HiC. simpl. lia.
Qed.

(** X2: the predicted total head-count of a year is never below
    [target_total], and equals it exactly when no level's social allocation
    had to be clamped to 0: the residual correction makes the allocation add
    up to the social need, and the clamp can only add. *)
Theorem predicted_total_meets_target `{FloatSum}
    cc cs ca sa cl sl snh cnh cpr spr car sar hr ratio target prev p :
  predict_one_year cc cs ca sa cl sl snh cnh cpr spr car sar hr ratio target prev
  = Ok p →
  ∃ s, structure_phase cc cs cpr spr car sar hr ratio target = Ok s
    ∧ target ≤ sum_values (Prediction.final_structure p)
    ∧ (sum_values (Prediction.final_structure p) = target
       ↔ ∀ level v, level ∈ LEVEL_RANGE →
                    Locals.initial_C s !! level = Some v → 0 ≤ v).
Proof.
  intros Hp.
  destruct (predict_one_year_inv _ _ _ _ _ _ _ _ _ _ _ _ _ _ _ _ _ Hp)
    as (s & Hs & _ & _ & _ & -> & _).
  exists s. split; [done|].
  destruct (structure_phase_inv _ _ _ _ _ _ _ _ _ _ Hs)
    as (_ & _ & _ & _ & _ & _ & _ & _ & _ & _ & _ & _ & _ & Htot).
  rewrite <- Htot, (predicted_total_decomposition _ _ _ _ _ _ _ _ _ _ Hs).
  assert (Hnonneg : ∀ level, level ∈ LEVEL_RANGE →
            0 ≤ Z.max 0 (entry (Locals.initial_C s) level)
                - entry (Locals.initial_C s) level) by (intros; lia).
  pose proof (sum_over_nonneg _ _ Hnonneg) as Hsum.
  split; [lia|]. split.
  - intros Heq level v Hl Hv.
    assert (sum_over LEVEL_RANGE
              (λ level, Z.max 0 (entry (Locals.initial_C s) level)
                        - entry (Locals.initial_C s) level) = 0) as Hzero by lia.
    pose proof (sum_over_zero _ _ Hnonneg Hzero level Hl) as Hlevel.
    simpl in Hlevel. unfold entry in Hlevel. rewrite Hv in Hlevel.
    simpl in Hlevel. lia.
  - intros Hnoclamp.
    rewrite (sum_over_ext _ _ (λ _, 0)).
    + assert (∀ ks, sum_over ks (λ _, 0) = 0) as ->
        by (induction ks; simpl; lia). lia.
    + intros level Hl.
      destruct (structure_phase_level _ _ _ _ _ _ _ _ _ _ _ Hs Hl)
        as (_ & _ & v & _ & _ & _ & _ & _ & HiC & _).
      unfold entry. rewrite HiC. simpl.
      specialize (Hnoclamp level v Hl HiC). lia.
Qed.

Lemma predicted_total_meets_target_witness :
  ∃ p, growth_call = Ok p
    ∧ ∃ s, Growth.structure = Ok s
        ∧ Growth.target_total ≤ sum_values (Prediction.final_structure p)
        ∧ (sum_values (Prediction.final_structure p) = Growth.target_total
           ↔ ∀ level v, level ∈ LEVEL_RANGE →
                        Locals.initial_C s !! level = Some v → 0 ≤ v).
Proof.
  eexists. split.
  - vm_compute. reflexivity.
  - eapply (@predicted_total_meets_target float_sum_left
              Growth.campus_employees Growth.social_employees
              (Some Growth.campus_ages) (Some Growth.social_ages)
              Growth.campus_ages Growth.social_ages Growth.social_ages 23%float
              Growth.promotion_rates Growth.promotion_rates
              Growth.attrition_rates Growth.attrition_rates
              Growth.hiring_ratios Growth.campus_ratio Growth.target_total None).
    vm_compute. reflexivity.
Defined.

(** ** The keys of the returned dictionaries *)

(** X3: the four dictionaries a returning [predict_one_year] hands back
    ([final_campus], [final_social], [final_structure] and the social
    hires) have the seven levels as their keys, no more and no less,
    whatever other keys the input mappings carry. *)
Theorem returned_dictionaries_keyed_by_levels `{FloatSum}
    cc cs ca sa cl sl snh cnh cpr spr car sar hr ratio target prev p :
  predict_one_year cc cs ca sa cl sl snh cnh cpr spr car sar hr ratio target prev
  = Ok p →
  keyed_by_levels (Prediction.final_campus p)
  ∧ keyed_by_levels (Prediction.final_social p)
  ∧ keyed_by_levels (Prediction.final_structure p)
  ∧ keyed_by_levels (Prediction.social_hiring p).
Proof.
  intros Hp.
  destruct (predict_one_year_inv _ _ _ _ _ _ _ _ _ _ _ _ _ _ _ _ _ Hp)
    as (s & Hs & _ & -> & -> & -> & _ & -> & _).
  destruct (structure_phase_inv _ _ _ _ _ _ _ _ _ _ Hs)
    as (_ & _ & _ & _ & _ & _ & _ & _ & _ & HC & Hfc & Hfs & Hft & _).
  repeat split; by eapply dict_comp_keyed.
Qed.

Lemma returned_dictionaries_keyed_by_levels_witness :
  ∃ p, Stray.call = Ok p
    ∧ keyed_by_levels (Prediction.final_campus p)
    ∧ keyed_by_levels (Prediction.final_social p)
    ∧ keyed_by_levels (Prediction.final_structure p)
    ∧ keyed_by_levels (Prediction.social_hiring p).
Proof.
  eexists. split.
  - vm_compute. reflexivity.
  - eapply (@returned_dictionaries_keyed_by_levels float_sum_left
              Stray.campus_employees Stray.social_employees
              (Some Growth.campus_ages) (Some Growth.social_ages)
              Growth.campus_ages Growth.social_ages Growth.social_ages 23%float
              Stray.promotion_rates Stray.promotion_rates
              Growth.attrition_rates Growth.attrition_rates
              Stray.hiring_ratios Growth.campus_ratio Growth.target_total None).
    vm_compute. reflexivity.
Defined.

(** ** What a returning call has found in its inputs *)

Lemma Forall2_levels_term {A} (term : Z → A → Prop) (xs : list A) (level : Z) :
  Forall2 term LEVEL_RANGE xs → level ∈ LEVEL_RANGE → ∃ x, term level x.
Proof.
  intros Hxs Hl. apply list_elem_of_lookup_1 in Hl as [i Hi].
  destruct (Forall2_lookup_l _ _ _ _ _ Hxs Hi) as (x & _ & Hx). by exists x.
Qed.

Lemma level_sum_term `{FloatSum} (term : Z → float → Prop) (total : float)
    (level : Z) :
  level_sum term total → level ∈ LEVEL_RANGE → ∃ x, term level x.
Proof. intros (xs & Hxs & _) Hl. by apply (Forall2_levels_term term xs). Qed.

(** X4: a call of [predict_one_year] that returns has found an entry for
    each of the seven levels in every mapping it was given: the two
    head-counts, the four rates, the hiring ratios, the two leaving ages,
    the social new-hire ages and, when no previous age-mass is passed, the
    two current ages.  A mapping that lacks a level makes the call fail. *)
Theorem returning_call_covers_levels `{FloatSum}
    cc cs ca sa cl sl snh cnh cpr spr car sar hr ratio target prev p :
  predict_one_year cc cs ca sa cl sl snh cnh cpr spr car sar hr ratio target prev
  = Ok p →
  covers cc ∧ covers cs ∧ covers cpr ∧ covers spr ∧ covers car ∧ covers sar
  ∧ covers hr ∧ covers cl ∧ covers sl ∧ covers snh
  ∧ (prev = None →
     ∃ campus_ages social_ages,
       ca = Some campus_ages ∧ sa = Some social_ages
       ∧ covers campus_ages ∧ covers social_ages).
Proof.
  unfold predict_one_year. intros Hp.
  apply bind_Ok in Hp as (s & Hs & Hp).
  destruct (structure_phase_inv _ _ _ _ _ _ _ _ _ _ Hs)
    as (HA & _ & _ & _ & _ & _ & _ & Hrounded & _).
  assert (Hstruct : ∀ level, level ∈ LEVEL_RANGE →
            is_Some (cc !! level) ∧ is_Some (cs !! level)
            ∧ is_Some (cpr !! level) ∧ is_Some (spr !! level)
            ∧ is_Some (car !! level) ∧ is_Some (sar !! level)
            ∧ is_Some (hr !! level)).
  { intros level Hl.
    destruct (structure_phase_inputs _ _ _ _ _ _ _ _ _ _ _ Hs Hl)
      as (nc & ns & rc & rs & _ & _ & Hnc & Hns & Hrc & Hrs & _).
    destruct (promotion_pass_lookup _ _ _ _ _ _ _ HA Hl)
      as (_ & _ & outc & outs & _ & _ & _ & _ & Houtc & Houts & _).
    apply promoted_Ok in Houtc as (_ & pc & _ & _ & Hpc & _).
    apply promoted_Ok in Houts as (_ & ps & _ & _ & Hps & _).
    destruct (rounded_allocation_lookup _ _ _ level Hrounded) as [Hin _].
    destruct (Hin Hl) as (r & _ & _ & Hr & _).
    repeat split; by eexists. }
  unfold age_phase in Hp.
  apply bind_Ok in Hp as (start & Hstart%start_total_age_spec & Hp).
  apply bind_Ok in Hp as (lc & _ & Hp).
  apply bind_Ok in Hp as (ls & _ & Hp).
  apply bind_Ok in Hp as (rc & Hrc%leaving_total_age_spec & Hp).
  apply bind_Ok in Hp as (rs & Hrs%leaving_total_age_spec & Hp).
  apply bind_Ok in Hp as (survived & _ & Hp).
  apply bind_Ok in Hp as (aged & _ & Hp).
  apply bind_Ok in Hp as (cn & _ & Hp).
  apply bind_Ok in Hp as (sn & Hsn & _).
  apply fmap_Ok in Hsn as (xs & Hxs%gen_expr_Forall2 & _).
  repeat split; try (intros level Hl; by apply Hstruct).
  - intros level Hl.
    destruct (level_sum_term _ _ _ Hrc Hl) as (x & _ & _ & a & _ & _ & _ & Ha & _).
    by eexists.
  - intros level Hl.
    destruct (level_sum_term _ _ _ Hrs Hl) as (x & _ & _ & a & _ & _ & _ & Ha & _).
    by eexists.
  - intros level Hl.
    destruct (Forall2_levels_term _ _ _ Hxs Hl) as (x & Hx).
    apply bind_Ok in Hx as (c & _ & Hx).
    apply bind_Ok in Hx as (a & Ha%getitem_Ok & _). by eexists.
  - intros ->. destruct Hstart as (campus_ages & social_ages & -> & -> & Hseed).
    exists campus_ages, social_ages. repeat split; try done.
    + intros level Hl.
      destruct (level_sum_term _ _ _ Hseed Hl)
        as (x & _ & _ & ac & _ & _ & _ & _ & _ & Hac & _). by eexists.
    + intros level Hl.
      destruct (level_sum_term _ _ _ Hseed Hl)
        as (x & _ & _ & _ & a_s & _ & _ & _ & _ & _ & Has & _). by eexists.
Qed.

Lemma returning_call_covers_levels_witness :
  ∃ p, growth_call = Ok p
    ∧ covers Growth.campus_employees ∧ covers Growth.social_employees
    ∧ covers Growth.promotion_rates ∧ covers Growth.promotion_rates
    ∧ covers Growth.attrition_rates ∧ covers Growth.attrition_rates
    ∧ covers Growth.hiring_ratios ∧ covers Growth.campus_ages
    ∧ covers Growth.social_ages ∧ covers Growth.social_ages
    ∧ ((None : option float) = None →
       ∃ campus_ages social_ages,
         Some Growth.campus_ages = Some campus_ages
         ∧ Some Growth.social_ages = Some social_ages
         ∧ covers campus_ages ∧ covers social_ages).
Proof.
  eexists. split.
  - vm_compute. reflexivity.
  - eapply (@returning_call_covers_levels float_sum_left
              Growth.campus_employees Growth.social_employees
              (Some Growth.campus_ages) (Some Growth.social_ages)
              Growth.campus_ages Growth.social_ages Growth.social_ages 23%float
              Growth.promotion_rates Growth.promotion_rates
              Growth.attrition_rates Growth.attrition_rates
              Growth.hiring_ratios Growth.campus_ratio Growth.target_total None).
    vm_compute. reflexivity.
Defined.

(** Without the level-5 entry of the social leaving ages the call raises
    [KeyError], after the head-count steps have completed. *)
Example missing_leaving_age_raises :
  growth_call_without_leaving_age = Raise (KeyError 5).
Proof. vm_compute. reflexivity. Qed.

(** ** Entries outside the seven levels *)

Lemma bind_ext {A B} (m : result A) (f g : A → result B) :
  (∀ a, f a = g a) → m ≫= f = m ≫= g.
Proof. intros Hfg. destruct m; simpl; [apply Hfg|done]. Qed.

Lemma for_each_ext {S} (body body' : S → Z → result S) (ks : list Z) (s : S) :
  (∀ s k, k ∈ ks → body s k = body' s k) →
  for_each body ks s = for_each body' ks s.
Proof.
  revert s. induction ks as [|k ks IH]; intros s Hb; simpl; [done|].
  rewrite (Hb s k) by (by left). apply bind_ext. intros s'.
  apply IH. intros s1 k1 Hk1. apply Hb. by right.
Qed.

Lemma dict_fill_ext {V} (f g : Z → result V) (ks : list Z) (d : gmap Z V) :
  (∀ k, k ∈ ks → f k = g k) → dict_fill f ks d = dict_fill g ks d.
Proof.
  revert d. induction ks as [|k ks IH]; intros d Hfg; simpl; [done|].
  rewrite (Hfg k) by (by left). apply bind_ext. intros v.
  apply IH. intros k1 Hk1. apply Hfg. by right.
Qed.

Lemma dict_comp_ext {V} (f g : Z → result V) (ks : list Z) :
  (∀ k, k ∈ ks → f k = g k) → dict_comp f ks = dict_comp g ks.
Proof. apply dict_fill_ext. Qed.

Lemma gen_expr_ext {A} (f g : Z → result A) (ks : list Z) :
  (∀ k, k ∈ ks → f k = g k) → gen_expr f ks = gen_expr g ks.
Proof.
  induction ks as [|k ks IH]; intros Hfg; simpl; [done|].
  rewrite (Hfg k) by (by left). rewrite IH; [done|].
  intros k1 Hk1. apply Hfg. by right.
Qed.

Lemma getitem_agree {V} (d d' : gmap Z V) (level : Z) :
  agree_on_levels d d' → level ∈ LEVEL_RANGE → getitem d level = getitem d' level.
Proof. intros Hd Hl. unfold getitem. by rewrite (Hd level Hl). Qed.

Lemma promoted_agree (e e' : gmap Z Z) (r r' : gmap Z float) (level : Z) :
  agree_on_levels e e' → agree_on_levels r r' → level ∈ LEVEL_RANGE →
  promoted e r level = promoted e' r' level.
Proof.
  intros He Hr Hl. unfold promoted.
  rewrite (getitem_agree e e') by done. apply bind_ext. intros n.
  by rewrite (getitem_agree r r') by done.
Qed.

Lemma promoted_in_agree (e e' : gmap Z Z) (r r' : gmap Z float) (level : Z) :
  agree_on_levels e e' → agree_on_levels r r' → level ∈ LEVEL_RANGE →
  promoted_in e r level = promoted_in e' r' level.
Proof.
  intros He Hr Hl%elem_of_LEVEL_RANGE. unfold promoted_in.
  case_decide; [|done]. apply promoted_agree; [done..|].
  apply elem_of_LEVEL_RANGE. lia.
Qed.

Lemma after_attrition_agree (A e e' : gmap Z Z) (r r' : gmap Z float) (level : Z) :
  agree_on_levels e e' → agree_on_levels r r' → level ∈ LEVEL_RANGE →
  after_attrition A e r level = after_attrition A e' r' level.
Proof.
  intros He Hr Hl. unfold after_attrition. apply bind_ext. intros a.
  rewrite (getitem_agree e e') by done. apply bind_ext. intros n.
  by rewrite (getitem_agree r r') by done.
Qed.

Lemma structure_phase_agree cc cc' cs cs' cpr cpr' spr spr' car car' sar sar'
    hr hr' ratio target :
  agree_on_levels cc cc' → agree_on_levels cs cs' →
  agree_on_levels cpr cpr' → agree_on_levels spr spr' →
  agree_on_levels car car' → agree_on_levels sar sar' →
  agree_on_levels hr hr' →
  structure_phase cc cs cpr spr car sar hr ratio target
  = structure_phase cc' cs' cpr' spr' car' sar' hr' ratio target.
Proof.
  intros Hcc Hcs Hcpr Hspr Hcar Hsar Hhr. unfold structure_phase.
  assert (promotion_pass cc cs cpr spr = promotion_pass cc' cs' cpr' spr') as ->.
  { apply for_each_ext. intros A k Hk. unfold promotion_body, after_promotion.
    rewrite (promoted_agree cc cc' cpr cpr'),
            (promoted_agree cs cs' spr spr'),
            (promoted_in_agree cc cc' cpr cpr'),
            (promoted_in_agree cs cs' spr spr'),
            (getitem_agree cc cc'), (getitem_agree cs cs') by done.
    done. }
  apply bind_ext. intros [Ac As].
  rewrite (dict_comp_ext (after_attrition Ac cc car) (after_attrition Ac cc' car'))
    by (intros; by apply after_attrition_agree).
  apply bind_ext. intros Bc.
  rewrite (dict_comp_ext (after_attrition As cs sar) (after_attrition As cs' sar'))
    by (intros; by apply after_attrition_agree).
  apply bind_ext. intros Bs. apply bind_ext. intros B.
  apply bind_ext. intros hiring.
  assert (rounded_allocation (target - sum_values B - hiring) hr
          = rounded_allocation (target - sum_values B - hiring) hr') as ->.
  { apply dict_comp_ext. intros k Hk. by rewrite (getitem_agree hr hr'). }
  do 7 (apply bind_ext; intros ?).
  rewrite (gen_expr_ext
             (λ l, c ← getitem cc l; s ← getitem cs l; Ok (c + s))
             (λ l, c ← getitem cc' l; s ← getitem cs' l; Ok (c + s))); [done|].
  intros k Hk. by rewrite (getitem_agree cc cc'), (getitem_agree cs cs').
Qed.

Section Agreement.
Context `{FloatSum}.

Lemma leaving_total_agree (e e' : gmap Z Z) (r r' : gmap Z float) :
  agree_on_levels e e' → agree_on_levels r r' →
  leaving_total e r = leaving_total e' r'.
Proof.
  intros He Hr. unfold leaving_total. f_equal. apply gen_expr_ext. intros k Hk.
  rewrite (getitem_agree e e') by done. apply bind_ext. intros n.
  by rewrite (getitem_agree r r') by done.
Qed.

Lemma leaving_total_age_agree (e e' : gmap Z Z) (r r' a a' : gmap Z float) :
  agree_on_levels e e' → agree_on_levels r r' → agree_on_levels a a' →
  leaving_total_age e r a = leaving_total_age e' r' a'.
Proof.
  intros He Hr Ha. unfold leaving_total_age. f_equal.
  apply gen_expr_ext. intros k Hk.
  rewrite (getitem_agree e e') by done. apply bind_ext. intros n.
  rewrite (getitem_agree r r') by done. apply bind_ext. intros x.
  apply bind_ext. intros y. by rewrite (getitem_agree a a') by done.
Qed.

Lemma start_total_age_agree (cc cc' cs cs' : gmap Z Z)
    (ca ca' sa sa' : option (gmap Z float)) (prev : option float) :
  agree_on_levels cc cc' → agree_on_levels cs cs' →
  option_Forall2 agree_on_levels ca ca' →
  option_Forall2 agree_on_levels sa sa' →
  start_total_age cc cs ca sa prev = start_total_age cc' cs' ca' sa' prev.
Proof.
  intros Hcc Hcs Hca Hsa. unfold start_total_age.
  destruct prev; [done|].
  destruct Hca as [a a' Ha|]; [|done]. destruct Hsa as [b b' Hb|]; [|done].
  f_equal. apply gen_expr_ext. intros k Hk.
  rewrite (getitem_agree cc cc') by done. apply bind_ext. intros n.
  rewrite (getitem_agree a a') by done. apply bind_ext. intros x.
  apply bind_ext. intros y.
  rewrite (getitem_agree cs cs') by done. apply bind_ext. intros m.
  by rewrite (getitem_agree b b') by done.
Qed.

(** X5: [predict_one_year] reads its mappings at the seven levels only.
    Two calls whose mappings have the same entries at levels 1 to 7 end
    alike, in the same tuple or the same exception, whatever entries the
    mappings carry under other keys. *)
Theorem entries_outside_levels_ignored
    cc cc' cs cs' ca ca' sa sa' cl cl' sl sl' snh snh' cnh
    cpr cpr' spr spr' car car' sar sar' hr hr' ratio target prev :
  agree_on_levels cc cc' → agree_on_levels cs cs' →
  option_Forall2 agree_on_levels ca ca' →
  option_Forall2 agree_on_levels sa sa' →
  agree_on_levels cl cl' → agree_on_levels sl sl' →
  agree_on_levels snh snh' →
  agree_on_levels cpr cpr' → agree_on_levels spr spr' →
  agree_on_levels car car' → agree_on_levels sar sar' →
  agree_on_levels hr hr' →
  predict_one_year cc cs ca sa cl sl snh cnh cpr spr car sar hr ratio target prev
  = predict_one_year cc' cs' ca' sa' cl' sl' snh' cnh cpr' spr' car' sar' hr'
      ratio target prev.
Proof.
  intros Hcc Hcs Hca Hsa Hcl Hsl Hsnh Hcpr Hspr Hcar Hsar Hhr.
  unfold predict_one_year.
  rewrite (structure_phase_agree cc cc' cs cs' cpr cpr' spr spr' car car'
             sar sar' hr hr') by done.
  apply bind_ext. intros s. unfold age_phase.
  rewrite (start_total_age_agree cc cc' cs cs' ca ca' sa sa') by done.
  apply bind_ext. intros start.
  rewrite (leaving_total_agree cc cc' car car'),
          (leaving_total_agree cs cs' sar sar'),
          (leaving_total_age_agree cc cc' car car' cl cl'),
          (leaving_total_age_agree cs cs' sar sar' sl sl') by done.
  do 7 (apply bind_ext; intros ?).
  rewrite (gen_expr_ext
             (λ level, c ← getitem (Locals.C s) level;
                       a ← getitem snh level; int_mul_float c a)
             (λ level, c ← getitem (Locals.C s) level;
                       a ← getitem snh' level; int_mul_float c a)); [done|].
  intros k Hk. apply bind_ext. intros c.
  by rewrite (getitem_agree snh snh') by done.
Qed.
End Agreement.

Lemma agree_on_levels_insert {V} (d : gmap Z V) (k : Z) (v : V) :
  k ∉ LEVEL_RANGE → agree_on_levels (<[k := v]> d) d.
Proof. intros Hk level Hl. apply lookup_insert_ne. by intros ->. Qed.

Lemma agree_on_levels_refl {V} (d : gmap Z V) : agree_on_levels d d.
Proof. done. Qed.

Lemma agree_on_levels_trans {V} (d1 d2 d3 : gmap Z V) :
  agree_on_levels d1 d2 → agree_on_levels d2 d3 → agree_on_levels d1 d3.
Proof. intros H12 H23 level Hl. by rewrite H12, H23. Qed.

Lemma not_a_level (k : Z) : k < 1 ∨ 7 < k → k ∉ LEVEL_RANGE.
Proof. intros Hk Hin%elem_of_LEVEL_RANGE. unfold MIN_LEVEL, MAX_LEVEL in Hin. lia. Qed.

Lemma entries_outside_levels_ignored_witness :
  agree_on_levels Stray.campus_employees Growth.campus_employees
  ∧ agree_on_levels Stray.social_employees Growth.social_employees
  ∧ agree_on_levels Stray.promotion_rates Growth.promotion_rates
  ∧ agree_on_levels Stray.hiring_ratios Growth.hiring_ratios
  ∧ Stray.call = growth_call.
Proof.
  assert (agree_on_levels Stray.campus_employees Growth.campus_employees) as H1.
  { eapply agree_on_levels_trans; apply agree_on_levels_insert, not_a_level; lia. }
  assert (agree_on_levels Stray.social_employees Growth.social_employees) as H2.
  { apply agree_on_levels_insert, not_a_level; lia. }
  assert (agree_on_levels Stray.promotion_rates Growth.promotion_rates) as H3.
  { apply agree_on_levels_insert, not_a_level; lia. }
  assert (agree_on_levels Stray.hiring_ratios Growth.hiring_ratios) as H4.
  { apply agree_on_levels_insert, not_a_level; lia. }
  split; [exact H1|]. split; [exact H2|]. split; [exact H3|].
  split; [exact H4|].
  apply (@entries_outside_levels_ignored float_sum_left);
    first [assumption | apply agree_on_levels_refl
           | constructor; apply agree_on_levels_refl].
Defined.

(** ** The multi-year loop *)

Lemma for_each_app {S} (body : S → Z → result S) (ks1 ks2 : list Z) (s : S) :
  for_each body (ks1 ++ ks2) s = for_each body ks1 s ≫= for_each body ks2.
Proof.
  revert s. induction ks1 as [|k ks1 IH]; intros s; simpl; [done|].
  destruct (body s k) as [s'|e]; simpl; [apply IH|done].
Qed.

Section Forecast.
Context `{FloatSum}.

(** Each year is called with what satisfies the first-year check: the ages
    in the first year, the carried age-mass in the later ones. *)
Lemma years_loop_never_asks_for_ages (initial_params : Params.t)
    (campus_ages social_ages : gmap Z float) (n : nat) (year : Z) (st : Loop.t) :
  0 ≤ year →
  (0 < year → is_Some (Loop.previous_predicted_total_age st)) →
  for_each (year_body initial_params campus_ages social_ages)
           (seqZ year (Z.of_nat n)) st
  ≠ Raise (ValueError first_year_message).
Proof.
  revert year st. induction n as [|n IH]; intros year st Hyear Hprev; [done|].
  rewrite seqZ_cons by lia. simpl.
  replace (Z.pred (Z.of_nat (S n))) with (Z.of_nat n) by lia.
  intros [Hbody|(st' & Hbody & Hrest)]%bind_Raise.
  - unfold year_body in Hbody.
    apply bind_Raise in Hbody as [Hcall|(p & _ & [=])].
    apply validation_error_only_when_ages_missing in Hcall as [Hnone Hages].
    destruct (decide (year = 0)) as [->|Hne].
    + by destruct Hages.
    + rewrite decide_True in Hnone by lia.
      destruct Hprev as [t Ht]; [lia|]. congruence.
  - unfold year_body in Hbody.
    apply bind_Ok in Hbody as (p & _ & [= <-]).
    revert Hrest. apply IH; [lia|]. intros _. by eexists.
Qed.

(** X6: [predict_multiple_years] never raises the first-year validation
    error of [predict_one_year]: it passes both age mappings in the first
    year and the carried age-mass in every later year. *)
Theorem forecast_never_asks_for_ages (initial_params : Params.t)
    (forecast_years : Z) :
  predict_multiple_years initial_params forecast_years
  ≠ Raise (ValueError first_year_message).
Proof.
  unfold predict_multiple_years. rewrite range_of_nat.
  intros Hraise.
  destruct (for_each _ _ _) as [st|e] eqn:Hloop; [done|].
  injection Hraise as ->. revert Hloop.
  apply years_loop_never_asks_for_ages; [done|]. intros Hlt. lia.
Qed.

Lemma forecast_loop_split (initial_params : Params.t) (n m : Z) :
  0 ≤ n ≤ m →
  for_each (year_body initial_params
              (copy (Params.current_campus_ages initial_params))
              (copy (Params.current_social_ages initial_params)))
           (range 0 m)
           (Loop.mk (copy (Params.current_campus_employees initial_params))
                    (copy (Params.current_social_employees initial_params))
                    None [])
  = for_each (year_body initial_params
                (copy (Params.current_campus_ages initial_params))
                (copy (Params.current_social_ages initial_params)))
             (range 0 n)
             (Loop.mk (copy (Params.current_campus_employees initial_params))
                      (copy (Params.current_social_employees initial_params))
                      None [])
    ≫= for_each (year_body initial_params
                   (copy (Params.current_campus_ages initial_params))
                   (copy (Params.current_social_ages initial_params)))
                (seqZ n (Z.of_nat (Z.to_nat (m - n)))).
Proof.
  intros Hnm. rewrite <- for_each_app. f_equal. unfold range.
  rewrite !Z.sub_0_r, Z2Nat.id by lia.
  replace m with (n + (m - n)) at 1 by lia.
  rewrite seqZ_app by lia. done.
Qed.

(** X7: forecasts nest.  When the forecast over [m] years returns, the
    forecast over any shorter horizon [n] returns its first [n] records;
    when the forecast over [n] years raises, every longer forecast raises
    the same exception. *)
Theorem forecast_horizons_nest (initial_params : Params.t) (n m : Z) :
  0 ≤ n ≤ m →
  (∀ later, predict_multiple_years initial_params m = Ok later →
     predict_multiple_years initial_params n = Ok (take (Z.to_nat n) later))
  ∧ (∀ e, predict_multiple_years initial_params n = Raise e →
          predict_multiple_years initial_params m = Raise e).
Proof.
  intros Hnm. unfold predict_multiple_years.
  rewrite (forecast_loop_split initial_params n m Hnm).
  destruct (for_each _ (range 0 n) _) as [st|e] eqn:Hn; simpl.
  - split; [|done]. intros later (st' & Hrest & ->)%fmap_Ok.
    rewrite range_of_nat in Hn.
    destruct (years_loop_chain _ _ _ _ _ _ _ Hn) as (first & Hfirst & Hlen & _).
    destruct (years_loop_chain _ _ _ _ _ _ _ Hrest) as (more & -> & _ & _).
    simpl in Hfirst. rewrite Hfirst.
    by rewrite take_app_length' by done.
  - split; [done|]. by intros e' [= ->].
Qed.

End Forecast.

Lemma forecast_horizons_nest_witness :
  0 ≤ 2 ≤ 3
  ∧ ∃ later, growth_forecast = Ok later
      ∧ growth_forecast_two = Ok (take (Z.to_nat 2) later).
Proof.
  split; [lia|]. eexists. split.
  - vm_compute. reflexivity.
  - apply (proj1 (@forecast_horizons_nest float_sum_left Growth.params 2 3
                    ltac:(lia))).
    vm_compute. reflexivity.
Defined.

(** * Further properties of the metrics *)

Lemma wrap64_range (z : Z) : int64_range (wrap64 z).
Proof.
  unfold int64_range, wrap64.
  pose proof (Z.mod_pos_bound (z + 2 ^ 63) (2 ^ 64) ltac:(lia)). lia.
Qed.

Lemma wrap64_exact (z : Z) : int64_range z → wrap64 z = z.
Proof.
  unfold int64_range, wrap64. intros Hz.
  rewrite Z.mod_small by lia. lia.
Qed.

Lemma wrap64_mod (z : Z) : wrap64 z mod 2 ^ 64 = z mod 2 ^ 64.
Proof.
  unfold wrap64. rewrite Zminus_mod_idemp_l. f_equal. lia.
Qed.

Lemma wrap64_congruent (x y : Z) :
  x mod 2 ^ 64 = y mod 2 ^ 64 → wrap64 x = wrap64 y.
Proof.
  intros Hxy. unfold wrap64. f_equal.
  by rewrite <- (Zplus_mod_idemp_l x), Hxy, Zplus_mod_idemp_l.
Qed.

Lemma wrap64_add_l (a b : Z) : wrap64 (wrap64 a + b) = wrap64 (a + b).
Proof.
  apply wrap64_congruent.
  by rewrite <- Zplus_mod_idemp_l, wrap64_mod, Zplus_mod_idemp_l.
Qed.

Lemma wrap64_add_r (a b : Z) : wrap64 (a + wrap64 b) = wrap64 (a + b).
Proof.
  apply wrap64_congruent.
  by rewrite <- Zplus_mod_idemp_r, wrap64_mod, Zplus_mod_idemp_r.
Qed.

(** A column summed in int64 is the integer sum, wrapped once. *)
Lemma fold_left_add64 (xs : list Z) (a : Z) :
  fold_left add64 xs (wrap64 a) = wrap64 (a + foldr Z.add 0 xs).
Proof.
  revert a. induction xs as [|x xs IH]; intros a; simpl.
  - f_equal. lia.
  - unfold add64 at 2. rewrite wrap64_add_l, IH. f_equal. lia.
Qed.

Lemma fold_left_add64_0 (xs : list Z) :
  fold_left add64 xs 0 = wrap64 (foldr Z.add 0 xs).
Proof.
  pose proof (fold_left_add64 xs 0) as H.
  rewrite Z.add_0_l in H. rewrite <- H. f_equal.
Qed.

Lemma wrap64_foldr_map {A} (f g : A → Z) (l : list A) :
  (∀ x a, wrap64 (f x + a) = wrap64 (g x + a)) →
  wrap64 (foldr Z.add 0 (map f l)) = wrap64 (foldr (λ x acc, g x + acc) 0 l).
Proof.
  intros Hfg. induction l as [|x l IH]; simpl; [done|].
  rewrite Hfg, <- wrap64_add_r, IH, wrap64_add_r. done.
Qed.

(** [int(total_employees.sum())] *)
Lemma column_total (df : list Row.t) :
  fold_left add64
    (map (λ r, add64 (Row.campus_employee r) (Row.social_employee r)) df) 0
  = wrap64 (table_total df).
Proof.
  rewrite fold_left_add64_0. apply wrap64_foldr_map.
  intros r a. unfold add64. by rewrite wrap64_add_l.
Qed.

Lemma metrics_current_total `{FloatSum} (df : list Row.t) (m : Metrics.t) :
  calculate_current_metrics df = Ok m →
  Metrics.current_total m = wrap64 (table_total df).
Proof.
  unfold calculate_current_metrics. cbv zeta.
  intros (level & _ & (age & _ & [= <-])%bind_Ok)%bind_Ok.
  cbn [Metrics.current_total]. apply column_total.
Qed.

(** X8: the total head-count [calculate_current_metrics] reports is the sum
    of the campus and social head-counts of all rows, reduced to an int64:
    it always lies in the int64 range, and it is the exact sum whenever
    that sum does. *)
Theorem metrics_total_is_the_wrapped_sum `{FloatSum}
    (df : list Row.t) (m : Metrics.t) :
  calculate_current_metrics df = Ok m →
  Metrics.current_total m = wrap64 (table_total df)
  ∧ int64_range (Metrics.current_total m)
  ∧ (int64_range (table_total df) → Metrics.current_total m = table_total df).
Proof.
  intros ->%metrics_current_total. split; [done|]. split.
  - apply wrap64_range.
  - apply wrap64_exact.
Qed.

Lemma metrics_total_is_the_wrapped_sum_witness :
  ∃ m, @calculate_current_metrics float_sum_left growth_table = Ok m
    ∧ Metrics.current_total m = wrap64 (table_total growth_table)
    ∧ int64_range (Metrics.current_total m)
    ∧ (int64_range (table_total growth_table) →
       Metrics.current_total m = table_total growth_table).
Proof.
  eexists. split; [vm_compute; reflexivity|].
  apply (@metrics_total_is_the_wrapped_sum float_sum_left growth_table).
  vm_compute. reflexivity.
Defined.

(** Beyond the int64 range the total wraps around: 2^62 + 2^62 + 1 is
    reported as -2^63 + 1, and the campus ratio, guarded by [> 0], as 0.0. *)
Example overflowing_table_metrics :
  table_total overflowing_table = 2 ^ 63 + 1
  ∧ ∃ m, @calculate_current_metrics float_sum_left overflowing_table = Ok m
      ∧ Metrics.current_total m = - 2 ^ 63 + 1
      ∧ Metrics.current_campus_ratio m = 0%float.
Proof.
  split; [vm_compute; reflexivity|].
  eexists. split; [vm_compute; reflexivity|]. split; vm_compute; reflexivity.
Qed.

(** The builtin [sum] of the average level adds Python [int]s: the weighted
    head-count 7 * 2^61 is not reduced to an int64, and the average level of
    two rows of level 7 is 7.0. *)
Example senior_table_average_level :
  ∃ m, @calculate_current_metrics float_sum_left senior_table = Ok m
    ∧ Metrics.current_total m = 2 ^ 61
    ∧ Metrics.current_average_level m = 7%float.
Proof.
  eexists. split; [vm_compute; reflexivity|]. split; vm_compute; reflexivity.
Qed.

Lemma sum_permutation (xs ys : list Z) :
  xs ≡ₚ ys → foldr Z.add 0 xs = foldr Z.add 0 ys.
Proof. induction 1; simpl; lia. Qed.

(** X9: the total head-count, the average level and the campus ratio that
    [calculate_current_metrics] reports do not depend on the order of the
    rows of the table, and neither does the exception it raises when it
    raises one. *)
Theorem metrics_independent_of_row_order `{FloatSum} (df df' : list Row.t) :
  df ≡ₚ df' →
  Metrics.current_total <$> calculate_current_metrics df
  = Metrics.current_total <$> calculate_current_metrics df'
  ∧ Metrics.current_average_level <$> calculate_current_metrics df
    = Metrics.current_average_level <$> calculate_current_metrics df'
  ∧ Metrics.current_campus_ratio <$> calculate_current_metrics df
    = Metrics.current_campus_ratio <$> calculate_current_metrics df'.
Proof.
  intros Hp.
  pose proof (λ f : Row.t → Z, sum_permutation _ _ (Permutation_map f Hp))
    as Hsum.
  unfold calculate_current_metrics. cbv zeta.
  rewrite !fold_left_add64_0, !int_sum_foldr, !Hsum.
  generalize (float_sum
    (map (λ r, PrimFloat.add
                 (PrimFloat.mul (float_of_int64 (Row.campus_employee r))
                                (Row.campus_age r))
                 (PrimFloat.mul (float_of_int64 (Row.social_employee r))
                                (Row.social_age r))) df)).
  generalize (float_sum
    (map (λ r, PrimFloat.add
                 (PrimFloat.mul (float_of_int64 (Row.campus_employee r))
                                (Row.campus_age r))
                 (PrimFloat.mul (float_of_int64 (Row.social_employee r))
                                (Row.social_age r))) df')).
  intros age' age.
  destruct (decide (wrap64 (foldr Z.add 0
              (map (λ r, add64 (Row.campus_employee r) (Row.social_employee r))
                   df')) ≠ 0)) as [Hne|Heq]; [|by rewrite !bind_Ok_l].
  match goal with
  | |- context [int_truediv ?a ?b] => destruct (int_truediv a b) as [level|e]
  end; [|done].
  rewrite !bind_Ok_l. unfold float_div_int.
  match goal with
  | |- context [float_of_int ?n] => destruct (float_of_int n) as [f|e]
  end; [|done].
  rewrite !bind_Ok_l. destruct (decide (_ = 0)); done.
Qed.

Lemma metrics_independent_of_row_order_witness :
  growth_table ≡ₚ growth_table_shuffled
  ∧ Metrics.current_total <$> @calculate_current_metrics float_sum_left growth_table
    = Metrics.current_total
        <$> @calculate_current_metrics float_sum_left growth_table_shuffled
  ∧ Metrics.current_average_level
      <$> @calculate_current_metrics float_sum_left growth_table
    = Metrics.current_average_level
        <$> @calculate_current_metrics float_sum_left growth_table_shuffled
  ∧ Metrics.current_campus_ratio
      <$> @calculate_current_metrics float_sum_left growth_table
    = Metrics.current_campus_ratio
        <$> @calculate_current_metrics float_sum_left growth_table_shuffled.
Proof.
  assert (growth_table ≡ₚ growth_table_shuffled) as Hperm.
  { unfold growth_table, growth_table_shuffled. solve_Permutation. }
  split; [exact Hperm|].
  exact (@metrics_independent_of_row_order float_sum_left _ _ Hperm).
Defined.
